(** * A C++17 counting semaphore (semaphore.hpp), embedded and verified

    The header implements [std::counting_semaphore<LeastMaxValue>] with a
    [std::mutex], a [std::condition_variable] and a [std::ptrdiff_t] counter.

    The embedding follows one calling thread through a member function.
    Everything the member function does to the object is written out as
    explicit state passing in a small monad whose results distinguish a
    normal return, a propagating exception, [std::terminate], and a thread
    that is left suspended.  The other threads show up only where the C++
    memory model lets them: while the caller is parked inside a
    condition-variable wait and the mutex is released.  What they do there is
    given by a script of wake-ups carried in the state, so every function is
    total and can be evaluated. *)

From Stdlib Require Import ZArith List Bool Lia.
Import ListNotations.
Open Scope Z_scope.

(** ** [std::ptrdiff_t] *)

Module Ptrdiff.

(** LP64: a 64-bit two's-complement integer. *)
Definition PTRDIFF_MAX : Z := 2 ^ 63 - 1.
Definition PTRDIFF_MIN : Z := - 2 ^ 63.

Definition representable (z : Z) : Prop := PTRDIFF_MIN <= z <= PTRDIFF_MAX.

(** The value a 64-bit machine addition leaves in the register.  The C++
    standard leaves signed overflow undefined; the wrap-around below is what
    the generated [add]/[sub] instruction computes. *)
Definition wrap (z : Z) : Z := (z + 2 ^ 63) mod 2 ^ 64 - 2 ^ 63.

Definition add (a b : Z) : Z := wrap (a + b).
Definition sub (a b : Z) : Z := wrap (a - b).

End Ptrdiff.

(** ** [std::chrono::steady_clock] *)

Module Chrono.

(** Time points and durations of the steady clock count nanoseconds in a
    signed 64-bit [rep], the same range as [std::ptrdiff_t] here.  Times in
    the model are such counts; a [rel_time] is taken as already converted
    to the clock's period. *)
Definition representable (t : Z) : Prop := Ptrdiff.representable t.

(** [now + rel_time] on time points adds the two [rep]s, a 64-bit machine
    addition: a sum past the largest [rep] comes out negative. *)
Definition plus (now rel_time : Z) : Z := Ptrdiff.wrap (now + rel_time).

End Chrono.

(** [std::clamp(v, lo, hi)]: [lo] if [v < lo], [hi] if [hi < v], else [v]. *)
Definition clamp (v lo hi : Z) : Z :=
  if v <? lo then lo else if hi <? v then hi else v.

(** ** The object *)

(** The condition variable keeps no data the caller can read; the model
    records how many times [notify_all] has been issued on it. *)
Record condition_variable := { notified : nat }.

(** Data members of [counting_semaphore], in declaration order.  [m_lock] is
    [true] while some thread holds the mutex. *)
Record counting_semaphore := {
  m_count : Z;
  m_cv    : condition_variable;
  m_lock  : bool
}.

Definition set_count (c : Z) (s : counting_semaphore) : counting_semaphore :=
  {| m_count := c; m_cv := m_cv s; m_lock := m_lock s |}.

Definition set_lock (b : bool) (s : counting_semaphore) : counting_semaphore :=
  {| m_count := m_count s; m_cv := m_cv s; m_lock := b |}.

Definition signal (s : counting_semaphore) : counting_semaphore :=
  {| m_count := m_count s;
     m_cv := {| notified := S (notified (m_cv s)) |};
     m_lock := m_lock s |}.

(** [constexpr explicit counting_semaphore(std::ptrdiff_t desired = 0)
       : m_count(desired) { }] *)
Definition counting_semaphore_ctor (desired : Z) : counting_semaphore :=
  {| m_count := desired; m_cv := {| notified := O |}; m_lock := false |}.

(** ** The other threads *)

(** A critical section another thread completes on the same object while the
    caller is parked.  Each one runs with the mutex held, hence atomically. *)
Inductive effect :=
| by_release (update : Z)   (* a whole call of release(update)              *)
| by_acquire                (* the tail of acquire(), once its wait is over *)
| by_timed_acquire.         (* the tail of try_acquire_for / _until         *)

(** One return of [condition_variable::wait] / [wait_until]: how much time
    went by and what the other threads did meanwhile, in order.  A wake-up
    with no effects is a spurious one. *)
Record wakeup := { elapsed : N; others : list effect }.

(** What one thread's execution can see and change. *)
Record world := {
  this         : counting_semaphore;
  steady_clock : Z;
  pending      : list wakeup
}.

Definition on_this (f : counting_semaphore -> counting_semaphore) (w : world)
  : world :=
  {| this := f (this w); steady_clock := steady_clock w;
     pending := pending w |}.

(** ** Results of a call *)

Inductive system_error := resource_deadlock_would_occur | operation_not_permitted.

Inductive suspension := on_mutex | on_condition.

Inductive outcome (A : Type) :=
| Returned   (a : A) (w : world)             (* normal return               *)
| Thrown     (e : system_error) (w : world)  (* an exception leaves the call *)
| Terminated (w : world)                     (* std::terminate               *)
| Suspended  (p : suspension) (w : world).   (* parked, nothing wakes it     *)

Arguments Returned {A} a w.
Arguments Thrown {A} e w.
Arguments Terminated {A} w.
Arguments Suspended {A} p w.

Definition final {A} (o : outcome A) : world :=
  match o with
  | Returned _ w | Thrown _ w | Terminated w | Suspended _ w => w
  end.

Definition returns {A} (o : outcome A) : bool :=
  match o with Returned _ _ => true | _ => false end.

Definition M (A : Type) : Type := world -> outcome A.

Definition ret {A} (a : A) : M A := fun w => Returned a w.

Definition bind {A B} (m : M A) (k : A -> M B) : M B :=
  fun w =>
    match m w with
    | Returned a w' => k a w'
    | Thrown e w' => Thrown e w'
    | Terminated w' => Terminated w'
    | Suspended p w' => Suspended p w'
    end.

(** An exception leaves through [bind] as it is.  Destructors of locals are
    not run on that path: the one [throw] this header can reach is inside a
    [noexcept] function, where the stack need not be unwound before
    [std::terminate]. *)
Definition throw {A} (e : system_error) : M A := fun w => Thrown e w.

(** A [noexcept] function: an exception that would leave it calls
    [std::terminate] instead. *)
Definition noexcept {A} (m : M A) : M A :=
  fun w =>
    match m w with
    | Thrown _ w' => Terminated w'
    | o => o
    end.

Declare Scope sem_scope.
Delimit Scope sem_scope with sem.
Notation "x <- m ;; k" := (bind m (fun x => k))
  (at level 61, m at next level, right associativity) : sem_scope.
Notation "m ;; k" := (bind m (fun _ => k))
  (at level 61, right associativity) : sem_scope.
Open Scope sem_scope.

(** ** [std::mutex] *)

Definition mutex_lock : M unit :=
  fun w => if m_lock (this w) then Suspended on_mutex w
           else Returned tt (on_this (set_lock true) w).

Definition mutex_try_lock : M bool :=
  fun w => if m_lock (this w) then Returned false w
           else Returned true (on_this (set_lock true) w).

Definition mutex_unlock : M unit :=
  fun w => Returned tt (on_this (set_lock false) w).

(** ** [std::unique_lock<std::mutex>] *)

(** The local lock object; its mutex is always [m_lock]. *)
Record unique_lock := { owns_lock : bool }.

(** [explicit unique_lock(mutex_type& m)]: locks [m], blocking if needed. *)
Definition unique_lock_ctor : M unique_lock :=
  mutex_lock ;; ret {| owns_lock := true |}.

(** [try_lock()]: throws [resource_deadlock_would_occur] when the lock object
    already owns the mutex. *)
Definition unique_lock_try_lock (l : unique_lock) : M (bool * unique_lock) :=
  if owns_lock l then throw resource_deadlock_would_occur
  else b <- mutex_try_lock ;; ret (b, {| owns_lock := b |}).

(** [unlock()]: throws [operation_not_permitted] when nothing is owned. *)
Definition unique_lock_unlock (l : unique_lock) : M unique_lock :=
  if owns_lock l then mutex_unlock ;; ret {| owns_lock := false |}
  else throw operation_not_permitted.

(** [~unique_lock()]: releases the mutex if it is still owned. *)
Definition unique_lock_dtor (l : unique_lock) : M unit :=
  if owns_lock l then mutex_unlock else ret tt.

(** ** [counting_semaphore<LeastMaxValue>] *)

Section CountingSemaphore.

(** The template argument. *)
Variable LeastMaxValue : Z.

(** [m_count = std::clamp(m_count + update, std::ptrdiff_t{0}, LeastMaxValue)] *)
Definition add_clamped (update : Z) (s : counting_semaphore)
  : counting_semaphore :=
  set_count (clamp (Ptrdiff.add (m_count s) update) 0 LeastMaxValue) s.

(** [m_count = std::clamp(m_count - 1, std::ptrdiff_t{0}, LeastMaxValue)] *)
Definition sub_clamped (s : counting_semaphore) : counting_semaphore :=
  set_count (clamp (Ptrdiff.sub (m_count s) 1) 0 LeastMaxValue) s.

(** The wait predicate [[&] { return (m_count > 0); }]. *)
Definition has_permit (s : counting_semaphore) : bool := 0 <? m_count s.

(** *** Interference *)

(** A waiting acquirer of another thread gets through only if it finds a
    permit; otherwise it stays parked and changes nothing. *)
Definition apply_effect (s : counting_semaphore) (f : effect)
  : counting_semaphore :=
  match f with
  | by_release update => signal (add_clamped update s)
  | by_acquire => if has_permit s then signal (sub_clamped s) else s
  | by_timed_acquire => if has_permit s then sub_clamped s else s
  end.

Definition apply_effects (fs : list effect) (s : counting_semaphore)
  : counting_semaphore :=
  fold_left apply_effect fs s.

(** The object as the caller finds it when a wait is over: the wait released
    the mutex, the other threads ran, the mutex is held again. *)
Definition wake (s : counting_semaphore) (e : wakeup) : counting_semaphore :=
  set_lock true (apply_effects (others e) (set_lock false s)).

Definition after_wakeups (es : list wakeup) (s : counting_semaphore)
  : counting_semaphore :=
  fold_left wake es s.

(** The caller comes back from a wait; the clock has advanced. *)
Definition resume (e : wakeup) (rest : list wakeup) (w : world) : world :=
  {| this := wake (this w) e;
     steady_clock := steady_clock w + Z.of_N (elapsed e);
     pending := rest |}.

(** A timed wait that nothing interrupts ends when the timeout expires. *)
Definition expire (abs_time : Z) (w : world) : world :=
  {| this := this w;
     steady_clock := Z.max (steady_clock w) abs_time;
     pending := pending w |}.

(** The clock when a timed wait is over: at the scripted wake-up or at the
    expiry of the timeout, whichever comes first.  With [abs_time] already
    behind, no time passes. *)
Definition wait_ends (abs_time now : Z) (e : wakeup) : Z :=
  Z.min (now + Z.of_N (elapsed e)) (Z.max now abs_time).

(** The caller comes back from a timed wait.  What the other threads did
    while the mutex was released is seen whichever way the wait ended. *)
Definition resume_by (abs_time : Z) (e : wakeup) (rest : list wakeup)
           (w : world) : world :=
  {| this := wake (this w) e;
     steady_clock := wait_ends abs_time (steady_clock w) e;
     pending := rest |}.

(** The clock after a run of timed waits with the same deadline. *)
Definition clock_after (abs_time : Z) (es : list wakeup) (now : Z) : Z :=
  fold_left (wait_ends abs_time) es now.

(** *** [std::condition_variable] *)

Inductive cv_status := no_timeout | timeout.

Definition notify_all : M unit :=
  fun w => Returned tt (on_this signal w).

(** [wait(lock)] *)
Definition cv_wait (lock : unique_lock) : M unit :=
  fun w =>
    match pending w with
    | [] => Suspended on_condition (on_this (set_lock false) w)
    | e :: rest => Returned tt (resume e rest w)
    end.

Definition status_at (abs_time : Z) (w : world) : cv_status :=
  if steady_clock w <? abs_time then no_timeout else timeout.

(** [wait_until(lock, abs_time)]: [timeout] if [abs_time] has expired when
    the wait is over. *)
Definition cv_wait_until (lock : unique_lock) (abs_time : Z) : M cv_status :=
  fun w =>
    let w' := match pending w with
              | [] => expire abs_time w
              | e :: rest => resume_by abs_time e rest w
              end in
    Returned (status_at abs_time w') w'.

(** [wait(lock, pred)], that is [while (!pred()) wait(lock);].  The loop
    runs once per wake-up, so it is written by recursion on the script. *)
Fixpoint wait_loop (pred : counting_semaphore -> bool)
         (script : list wakeup) (w : world) : outcome unit :=
  if pred (this w) then Returned tt w
  else match script with
       | [] => Suspended on_condition (on_this (set_lock false) w)
       | e :: rest => wait_loop pred rest (resume e rest w)
       end.

Definition cv_wait_pred (lock : unique_lock)
           (pred : counting_semaphore -> bool) : M unit :=
  fun w => wait_loop pred (pending w) w.

(** [wait_until(lock, abs_time, pred)], that is
    [while (!pred()) if (wait_until(lock, abs_time) == cv_status::timeout)
                       return pred();
     return true;] *)
Fixpoint wait_until_loop (pred : counting_semaphore -> bool) (abs_time : Z)
         (script : list wakeup) (w : world) : outcome bool :=
  if pred (this w) then Returned true w
  else match script with
       | [] => let w' := expire abs_time w in
               Returned (pred (this w')) w'
       | e :: rest =>
           let w' := resume_by abs_time e rest w in
           match status_at abs_time w' with
           | timeout => Returned (pred (this w')) w'
           | no_timeout => wait_until_loop pred abs_time rest w'
           end
       end.

Definition cv_wait_until_pred (lock : unique_lock) (abs_time : Z)
           (pred : counting_semaphore -> bool) : M bool :=
  fun w => wait_until_loop pred abs_time (pending w) w.

(** [wait_for(lock, rel_time, pred)] is
    [wait_until(lock, steady_clock::now() + rel_time, pred)], the sum being
    that of the clock's 64-bit [rep]s. *)
Definition cv_wait_for_pred (lock : unique_lock) (rel_time : Z)
           (pred : counting_semaphore -> bool) : M bool :=
  fun w =>
    cv_wait_until_pred lock (Chrono.plus (steady_clock w) rel_time) pred w.

(** *** Member functions *)

Definition assign_count (f : counting_semaphore -> counting_semaphore)
  : M unit :=
  fun w => Returned tt (on_this f w).

(** [void release(std::ptrdiff_t update = 1)] *)
Definition release (update : Z) : M unit :=
  lock <- unique_lock_ctor ;;
  assign_count (add_clamped update) ;;
  notify_all ;;
  lock <- unique_lock_unlock lock ;;
  unique_lock_dtor lock.

(** [void acquire()] *)
Definition acquire : M unit :=
  lock <- unique_lock_ctor ;;
  cv_wait_pred lock has_permit ;;
  assign_count sub_clamped ;;
  notify_all ;;
  lock <- unique_lock_unlock lock ;;
  unique_lock_dtor lock.

(** [bool try_acquire() noexcept] *)
Definition try_acquire : M bool :=
  noexcept
    (lock <- unique_lock_ctor ;;
     r <- unique_lock_try_lock lock ;;
     let (locked, lock) := r : bool * unique_lock in
     if locked then
       assign_count sub_clamped ;;
       lock <- unique_lock_unlock lock ;;
       unique_lock_dtor lock ;;
       ret true
     else
       unique_lock_dtor lock ;;
       ret false).

(** [bool try_acquire_for(const std::chrono::duration<Rep, Period>& rel_time)] *)
Definition try_acquire_for (rel_time : Z) : M bool :=
  lock <- unique_lock_ctor ;;
  ok <- cv_wait_for_pred lock rel_time has_permit ;;
  if ok : bool then
    assign_count sub_clamped ;;
    unique_lock_dtor lock ;;
    ret true
  else
    unique_lock_dtor lock ;;
    ret false.

(** [bool try_acquire_until(const std::chrono::time_point<Clock, Duration>& abs_time)] *)
Definition try_acquire_until (abs_time : Z) : M bool :=
  lock <- unique_lock_ctor ;;
  ok <- cv_wait_until_pred lock abs_time has_permit ;;
  if ok : bool then
    assign_count sub_clamped ;;
    unique_lock_dtor lock ;;
    ret true
  else
    unique_lock_dtor lock ;;
    ret false.

(** [constexpr std::ptrdiff_t max() noexcept] *)
Definition max : M Z := noexcept (ret LeastMaxValue).

(** *** Sequences of calls *)

Inductive call :=
| call_release (update : Z)
| call_acquire
| call_try_acquire
| call_try_acquire_for (rel_time : Z)
| call_try_acquire_until (abs_time : Z)
| call_max.

Inductive value := v_void | v_bool (b : bool) | v_ptrdiff (z : Z).

Definition exec (c : call) : M value :=
  match c with
  | call_release update => release update ;; ret v_void
  | call_acquire => acquire ;; ret v_void
  | call_try_acquire => b <- try_acquire ;; ret (v_bool b)
  | call_try_acquire_for rel_time =>
      b <- try_acquire_for rel_time ;; ret (v_bool b)
  | call_try_acquire_until abs_time =>
      b <- try_acquire_until abs_time ;; ret (v_bool b)
  | call_max => z <- max ;; ret (v_ptrdiff z)
  end.

(** The calls one thread makes in program order, with the result of each.
    The thread goes no further than a call that does not return. *)
Fixpoint run (cs : list call) (w : world) : list (outcome value) :=
  match cs with
  | [] => []
  | c :: cs' =>
      let o := exec c w in
      o :: (if returns o then run cs' (final o) else [])
  end.

(** The data-model invariant. *)
Definition in_range (s : counting_semaphore) : Prop :=
  0 <= m_count s <= LeastMaxValue.

(** A script in which the other threads never touch the object. *)
Definition quiet (script : list wakeup) : Prop :=
  Forall (fun e => others e = []) script.

End CountingSemaphore.

(** [using binary_semaphore = counting_semaphore<1>;] *)
Definition binary_semaphore_max : M Z := max 1.

(** ** Reference values for the properties *)

(** A semaphore just constructed with [desired], at clock reading [now],
    with [script] describing the other threads. *)
Definition fresh (desired now : Z) (script : list wakeup) : world :=
  {| this := counting_semaphore_ctor desired;
     steady_clock := now;
     pending := script |}.

(** The counter read off a trace of calls. *)
Definition counts (os : list (outcome value)) : list Z :=
  map (fun o => m_count (this (final o))) os.

(** [c+1, c+2, ..., c+n] and [c-1, c-2, ..., c-n]. *)
Fixpoint count_up (c : Z) (n : nat) : list Z :=
  match n with
  | O => []
  | S n' => (c + 1) :: count_up (c + 1) n'
  end.

Fixpoint count_down (c : Z) (n : nat) : list Z :=
  match n with
  | O => []
  | S n' => (c - 1) :: count_down (c - 1) n'
  end.

(** * Properties *)

(** ** Integer and clamp facts *)

Module PtrdiffFacts.
Import Ptrdiff.

Lemma wrap_representable (z : Z) : representable (wrap z).
Proof.
  unfold representable, wrap, PTRDIFF_MIN, PTRDIFF_MAX.
  assert (H : 0 <= (z + 2 ^ 63) mod 2 ^ 64 < 2 ^ 64)
    by (apply Z.mod_pos_bound; lia).
  lia.
Qed.

Lemma wrap_id (z : Z) : representable z -> wrap z = z.
Proof.
  unfold representable, wrap, PTRDIFF_MIN, PTRDIFF_MAX. intros H.
  rewrite Z.mod_small; lia.
Qed.

End PtrdiffFacts.

Lemma clamp_bounds (v lo hi : Z) : lo <= hi -> lo <= clamp v lo hi <= hi.
Proof.
  intros H. unfold clamp.
  destruct (Z.ltb_spec v lo); [lia|].
  destruct (Z.ltb_spec hi v); lia.
Qed.

Lemma clamp_inside (v lo hi : Z) : lo <= v <= hi -> clamp v lo hi = v.
Proof.
  intros H. unfold clamp.
  destruct (Z.ltb_spec v lo); [lia|].
  destruct (Z.ltb_spec hi v); lia.
Qed.

Lemma clamp_above (v lo hi : Z) : lo <= hi -> hi <= v -> clamp v lo hi = hi.
Proof.
  intros H1 H2. unfold clamp.
  destruct (Z.ltb_spec v lo); [lia|].
  destruct (Z.ltb_spec hi v); lia.
Qed.

Lemma clamp_below (v lo hi : Z) : v <= lo -> clamp v lo hi = lo \/ hi < lo.
Proof.
  intros H. unfold clamp.
  destruct (Z.ltb_spec v lo); [now left|].
  destruct (Z.ltb_spec hi v); [right; lia | left; lia].
Qed.

(** ** The waits are the loops of the C++ library *)

Section Waits.

Variable LeastMaxValue : Z.
Variable lock : unique_lock.
Variable pred : counting_semaphore -> bool.

Local Abbreviation wait_pred := (cv_wait_pred LeastMaxValue lock pred).
Local Abbreviation wait_until_pred t :=
  (cv_wait_until_pred LeastMaxValue lock t pred).

(** [while (!pred()) wait(lock);] *)
Lemma cv_wait_pred_unfold (w : world) :
  wait_pred w =
  if pred (this w) then Returned tt w
  else (cv_wait LeastMaxValue lock ;; wait_pred) w.
Proof.
  unfold cv_wait_pred, bind, cv_wait.
  destruct (pending w) as [|e rest] eqn:E; simpl;
    destruct (pred (this w)); reflexivity.
Qed.

(** [while (!pred()) if (wait_until(lock, t) == timeout) return pred();
    return true;] *)
Lemma cv_wait_until_pred_unfold (t : Z) (w : world) :
  wait_until_pred t w =
  if pred (this w) then Returned true w
  else (st <- cv_wait_until LeastMaxValue lock t ;;
        match st with
        | timeout => fun w' => Returned (pred (this w')) w'
        | no_timeout => wait_until_pred t
        end) w.
Proof.
  unfold cv_wait_until_pred, bind, cv_wait_until.
  destruct (pending w) as [|e rest] eqn:E; simpl;
    destruct (pred (this w)) eqn:P; try reflexivity.
  - unfold status_at, expire; simpl.
    destruct (Z.ltb_spec (Z.max (steady_clock w) t) t);
      [lia | cbn [this]; now rewrite P].
  - destruct (status_at t (resume_by LeastMaxValue t e rest w)); reflexivity.
Qed.

End Waits.

(** ** What a wait leaves behind *)

Ltac enter_call :=
  cbv beta iota delta
    [release acquire try_acquire try_acquire_for try_acquire_until max
     noexcept bind ret throw unique_lock_ctor unique_lock_try_lock
     unique_lock_unlock unique_lock_dtor mutex_lock mutex_try_lock
     mutex_unlock assign_count notify_all cv_wait_pred cv_wait_for_pred
     cv_wait_until_pred exec].

Section Loops.

Variable LeastMaxValue : Z.
Variable pred : counting_semaphore -> bool.

(** A predicate wait either returns with the predicate true, having used a
    prefix of the script, or uses the whole script and stays parked. *)
Lemma wait_loop_spec (script : list wakeup) :
  forall w, pending w = script ->
    (exists consumed w',
        wait_loop LeastMaxValue pred script w = Returned tt w' /\
        script = consumed ++ pending w' /\
        this w' = after_wakeups LeastMaxValue consumed (this w) /\
        pred (this w') = true)
    \/
    (exists w',
        wait_loop LeastMaxValue pred script w = Suspended on_condition w' /\
        this w' =
          set_lock false (after_wakeups LeastMaxValue script (this w)) /\
        pred (after_wakeups LeastMaxValue script (this w)) = false).
Proof.
  induction script as [|e rest IH]; intros w Hw; simpl.
  - destruct (pred (this w)) eqn:P.
    + left. exists [], w. now rewrite Hw.
    + right. eexists. split; [reflexivity|]. now split.
  - destruct (pred (this w)) eqn:P.
    + left. exists [], w. now rewrite Hw.
    + destruct (IH (resume LeastMaxValue e rest w) eq_refl)
        as [(consumed & w' & Hr & Hs & Ht & Hp) | (w' & Hr & Ht & Hp)].
      * left. exists (e :: consumed), w'. rewrite Hr. simpl.
        repeat split; [now f_equal | exact Ht | exact Hp].
      * right. exists w'. rewrite Hr. now repeat split.
Qed.

(** A timed predicate wait always returns, with the value the predicate has
    on the object it leaves. *)
Lemma wait_until_loop_spec (t : Z) (script : list wakeup) :
  forall w, pending w = script ->
    exists consumed w',
      wait_until_loop LeastMaxValue pred t script w
        = Returned (pred (this w')) w' /\
      script = consumed ++ pending w' /\
      this w' = after_wakeups LeastMaxValue consumed (this w).
Proof.
  induction script as [|e rest IH]; intros w Hw; simpl.
  - destruct (pred (this w)) eqn:P.
    + exists [], w. rewrite P, Hw. now repeat split.
    + exists [], (expire t w). simpl. rewrite Hw, P. now repeat split.
  - destruct (pred (this w)) eqn:P.
    + exists [], w. rewrite P, Hw. now repeat split.
    + destruct (status_at t (resume_by LeastMaxValue t e rest w)).
      * destruct (IH (resume_by LeastMaxValue t e rest w) eq_refl)
          as (consumed & w' & Hr & Hs & Ht).
        exists (e :: consumed), w'. rewrite Hr. simpl.
        repeat split; [now f_equal | exact Ht].
      * exists [e], (resume_by LeastMaxValue t e rest w). now repeat split.
Qed.

(** Once the deadline has passed, the first wait already reports a timeout. *)
Lemma wait_until_loop_expired (t : Z) (w : world) :
  t <= steady_clock w ->
  wait_until_loop LeastMaxValue pred t (pending w) w =
  if pred (this w) then Returned true w
  else match pending w with
       | [] => Returned (pred (this w)) (expire t w)
       | e :: rest =>
           Returned (pred (wake LeastMaxValue (this w) e))
                    (resume_by LeastMaxValue t e rest w)
       end.
Proof.
  intros Ht. destruct (pending w) as [|e rest]; simpl;
    destruct (pred (this w)); try reflexivity.
  unfold status_at. cbn [steady_clock resume_by].
  destruct (Z.ltb_spec (wait_ends t (steady_clock w) e) t) as [H | H];
    [unfold wait_ends in H; lia | reflexivity].
Qed.

End Loops.

(** ** Each member function, once the constructor of [lock] is through *)

Section Calls.

Variable LeastMaxValue : Z.

Local Abbreviation Max := LeastMaxValue.

Lemma after_wakeups_lock (es : list wakeup) (b : bool) (s : counting_semaphore) :
  m_count (after_wakeups Max es (set_lock b s))
  = m_count (after_wakeups Max es s).
Proof. destruct es; reflexivity. Qed.

Lemma after_wakeups_quiet (es : list wakeup) (s : counting_semaphore) :
  quiet es -> m_count (after_wakeups Max es s) = m_count s.
Proof.
  intros Q. revert s. induction Q as [|e es He _ IH]; intros s; simpl.
  - reflexivity.
  - rewrite IH. unfold wake. rewrite He. reflexivity.
Qed.

(** The constructor of [lock] parks the caller while the mutex is taken. *)
Lemma contended (c : call) (w : world) :
  m_lock (this w) = true -> exec Max c w =
    match c with
    | call_max => Returned (v_ptrdiff Max) w
    | _ => Suspended on_mutex w
    end.
Proof.
  intros H. destruct c; unfold exec; enter_call; rewrite ?H; reflexivity.
Qed.

Lemma release_uncontended (update : Z) (w : world) :
  m_lock (this w) = false ->
  release Max update w =
  Returned tt
    (on_this (fun s => set_lock false
                         (signal (add_clamped Max update (set_lock true s))))
             w).
Proof. intros H. enter_call. rewrite H. reflexivity. Qed.

Lemma acquire_uncontended (w : world) :
  m_lock (this w) = false ->
  acquire Max w =
  match wait_loop Max has_permit (pending w) (on_this (set_lock true) w) with
  | Returned _ w1 =>
      Returned tt (on_this (fun s => set_lock false (signal (sub_clamped Max s))) w1)
  | Thrown e w1 => Thrown e w1
  | Terminated w1 => Terminated w1
  | Suspended p w1 => Suspended p w1
  end.
Proof.
  intros H. enter_call. rewrite H. cbn [pending on_this].
  destruct (wait_loop _ _ _ _); reflexivity.
Qed.

Lemma try_acquire_until_uncontended (abs_time : Z) (w : world) :
  m_lock (this w) = false ->
  try_acquire_until Max abs_time w =
  match wait_until_loop Max has_permit abs_time (pending w)
                        (on_this (set_lock true) w) with
  | Returned true w1 =>
      Returned true (on_this (fun s => set_lock false (sub_clamped Max s)) w1)
  | Returned false w1 => Returned false (on_this (set_lock false) w1)
  | Thrown e w1 => Thrown e w1
  | Terminated w1 => Terminated w1
  | Suspended p w1 => Suspended p w1
  end.
Proof.
  intros H. enter_call. rewrite H. cbn [pending on_this].
  destruct (wait_until_loop _ _ _ _ _) as [[|] ? | | |]; reflexivity.
Qed.

(** [try_acquire_for] is [try_acquire_until] at [now() + rel_time]. *)
Lemma try_acquire_for_until (rel_time : Z) (w : world) :
  try_acquire_for Max rel_time w
  = try_acquire_until Max (Chrono.plus (steady_clock w) rel_time) w.
Proof.
  enter_call. destruct (m_lock (this w)); reflexivity.
Qed.

(** [try_acquire]: the constructor has locked, so [try_lock] throws. *)
Lemma try_acquire_eval (w : world) :
  try_acquire Max w =
  if m_lock (this w) then Suspended on_mutex w
  else Terminated (on_this (set_lock true) w).
Proof. enter_call. destruct (m_lock (this w)); reflexivity. Qed.

(** *** The range of the counter *)

Lemma in_range_add_clamped (update : Z) (s : counting_semaphore) :
  0 <= Max -> in_range Max (add_clamped Max update s).
Proof. intros H. apply clamp_bounds, H. Qed.

Lemma in_range_sub_clamped (s : counting_semaphore) :
  0 <= Max -> in_range Max (sub_clamped Max s).
Proof. intros H. apply clamp_bounds, H. Qed.

Lemma in_range_apply_effect (s : counting_semaphore) (f : effect) :
  in_range Max s -> in_range Max (apply_effect Max s f).
Proof.
  intros H. assert (HM : 0 <= Max) by (unfold in_range in H; lia).
  destruct f; simpl.
  - now apply in_range_add_clamped.
  - destruct (has_permit s); [now apply in_range_sub_clamped | exact H].
  - destruct (has_permit s); [now apply in_range_sub_clamped | exact H].
Qed.

Lemma in_range_apply_effects (fs : list effect) :
  forall s, in_range Max s -> in_range Max (apply_effects Max fs s).
Proof.
  induction fs as [|f fs IH]; intros s H; simpl; [exact H|].
  apply IH, in_range_apply_effect, H.
Qed.

Lemma in_range_wake (s : counting_semaphore) (e : wakeup) :
  in_range Max s -> in_range Max (wake Max s e).
Proof. intros H. unfold wake. now apply in_range_apply_effects. Qed.

Lemma in_range_after_wakeups (es : list wakeup) :
  forall s, in_range Max s -> in_range Max (after_wakeups Max es s).
Proof.
  induction es as [|e es IH]; intros s H; simpl; [exact H|].
  apply IH, in_range_wake, H.
Qed.

(** Every call leaves the counter in range, however it ends. *)
Lemma exec_in_range (c : call) (w : world) :
  in_range Max (this w) -> in_range Max (this (final (exec Max c w))).
Proof.
  intros H. assert (HM : 0 <= Max) by (unfold in_range in H; lia).
  destruct (m_lock (this w)) eqn:L.
  { rewrite contended by exact L. destruct c; exact H. }
  assert (Htimed : forall t,
    in_range Max (this (final (try_acquire_until Max t w)))).
  { intros t. rewrite try_acquire_until_uncontended by exact L.
    destruct (wait_until_loop_spec Max has_permit t (pending w)
                (on_this (set_lock true) w) eq_refl)
      as (consumed & w' & -> & _ & Hw').
    destruct (has_permit (this w')); simpl.
    - now apply in_range_sub_clamped.
    - rewrite Hw'. now apply in_range_after_wakeups. }
  assert (Hfinal : forall (m : M bool) (k : bool -> value),
    final ((b <- m ;; ret (k b)) w) = final (m w)).
  { intros m k. unfold bind, ret. now destruct (m w). }
  destruct c; unfold exec.
  - unfold bind. rewrite release_uncontended by exact L. simpl.
    now apply in_range_add_clamped.
  - unfold bind. rewrite acquire_uncontended by exact L.
    destruct (wait_loop_spec Max has_permit (pending w)
                (on_this (set_lock true) w) eq_refl)
      as [(consumed & w' & -> & _ & _ & _) | (w' & -> & Hw' & _)]; simpl.
    + now apply in_range_sub_clamped.
    + rewrite Hw'. now apply in_range_after_wakeups.
  - rewrite Hfinal, try_acquire_eval, L. exact H.
  - rewrite Hfinal, try_acquire_for_until. apply Htimed.
  - rewrite Hfinal. apply Htimed.
  - exact H.
Qed.

End Calls.

(** ** The timed acquisitions and the blocking one, in one piece each *)

Section Acquisitions.

Variable LeastMaxValue : Z.

Local Abbreviation Max := LeastMaxValue.

Lemma quiet_prefix (a b : list wakeup) : quiet (a ++ b) -> quiet a.
Proof. unfold quiet. intros H. now apply Forall_app in H. Qed.

(** A timed acquisition returns what the predicate says at its last check,
    and takes a permit exactly when that is [true]. *)
Lemma try_acquire_until_spec (abs_time : Z) (w : world) :
  m_lock (this w) = false ->
  exists consumed w',
    let seen := m_count (after_wakeups Max consumed (this w)) in
    try_acquire_until Max abs_time w = Returned (0 <? seen) w' /\
    pending w = consumed ++ pending w' /\
    m_count (this w') =
      (if 0 <? seen then clamp (Ptrdiff.sub seen 1) 0 Max else seen) /\
    m_lock (this w') = false.
Proof.
  intros L. rewrite try_acquire_until_uncontended by exact L.
  destruct (wait_until_loop_spec Max has_permit abs_time (pending w)
              (on_this (set_lock true) w) eq_refl)
    as (consumed & w1 & -> & Hs & Ht).
  unfold has_permit. rewrite Ht. cbn [this on_this].
  rewrite after_wakeups_lock.
  destruct (0 <? m_count (after_wakeups Max consumed (this w))) eqn:P.
  - eexists consumed, _. cbn zeta. rewrite P.
    split; [reflexivity|]. split; [exact Hs|].
    cbn. rewrite Ht. cbn [this on_this]. rewrite after_wakeups_lock.
    now split.
  - eexists consumed, _. cbn zeta. rewrite P.
    split; [reflexivity|]. split; [exact Hs|].
    cbn. rewrite Ht. cbn [this on_this]. rewrite after_wakeups_lock.
    now split.
Qed.

(** The blocking acquisition either returns or stays parked on the condition
    variable; it returns only past a check that found a permit. *)
Lemma acquire_spec (w : world) :
  m_lock (this w) = false ->
  (exists consumed w',
      let seen := m_count (after_wakeups Max consumed (this w)) in
      acquire Max w = Returned tt w' /\
      pending w = consumed ++ pending w' /\
      0 < seen /\
      m_count (this w') = clamp (Ptrdiff.sub seen 1) 0 Max /\
      m_lock (this w') = false)
  \/
  (exists w',
      acquire Max w = Suspended on_condition w' /\
      m_count (this w') = m_count (after_wakeups Max (pending w) (this w)) /\
      m_count (this w') <= 0).
Proof.
  intros L. rewrite acquire_uncontended by exact L.
  destruct (wait_loop_spec Max has_permit (pending w)
              (on_this (set_lock true) w) eq_refl)
    as [(consumed & w1 & -> & Hs & Ht & Hp) | (w1 & -> & Ht & Hp)].
  - left. eexists consumed, _. cbn zeta.
    unfold has_permit in Hp. rewrite Ht in Hp. cbn [this on_this] in Hp.
    rewrite after_wakeups_lock in Hp. apply Z.ltb_lt in Hp.
    split; [reflexivity|]. split; [exact Hs|]. split; [exact Hp|].
    cbn. rewrite Ht. cbn [this on_this]. rewrite after_wakeups_lock.
    now split.
  - right. exists w1. split; [reflexivity|].
    unfold has_permit in Hp. cbn [this on_this] in Hp, Ht.
    rewrite after_wakeups_lock in Hp. apply Z.ltb_ge in Hp.
    rewrite Ht. cbn. rewrite after_wakeups_lock. now split.
Qed.

(** With a permit in sight, [acquire] goes straight through. *)
Lemma acquire_immediate (w : world) :
  m_lock (this w) = false -> 0 < m_count (this w) ->
  acquire Max w =
  Returned tt
    (on_this (fun s => set_lock false
                         (signal (sub_clamped Max (set_lock true s)))) w).
Proof.
  intros L Hc. rewrite acquire_uncontended by exact L.
  apply Z.ltb_lt in Hc.
  destruct (pending w); cbn; unfold has_permit; cbn; rewrite Hc; reflexivity.
Qed.

End Acquisitions.

(** ** How long a timed wait lasts *)

Section TimedWaits.

Variable LeastMaxValue : Z.
Variable pred : counting_semaphore -> bool.

Local Abbreviation Max := LeastMaxValue.

Lemma wait_ends_bounds (t now : Z) (e : wakeup) :
  now <= wait_ends t now e <= Z.max now t.
Proof. unfold wait_ends. lia. Qed.

(** The timed loop in full: it goes on while it sees the predicate false and
    the clock short of the deadline, and stops at the first check that sees
    it true or at the first wake-up that finds the deadline reached. *)
Lemma wait_until_loop_strong (t : Z) (script : list wakeup) :
  forall w, pending w = script ->
    exists consumed w',
      wait_until_loop Max pred t script w = Returned (pred (this w')) w' /\
      script = consumed ++ pending w' /\
      this w' = after_wakeups Max consumed (this w) /\
      (forall q r, consumed = q ++ r -> r <> [] ->
         pred (after_wakeups Max q (this w)) = false /\
         (q <> [] -> clock_after t q (steady_clock w) < t)) /\
      (pred (this w') = true ->
         steady_clock w' = clock_after t consumed (steady_clock w)) /\
      (pred (this w') = false ->
         steady_clock w' = Z.max (steady_clock w) t /\
         (consumed = [] -> script = [])) /\
      steady_clock w <= steady_clock w' <= Z.max (steady_clock w) t.
Proof.
  assert (Hnil : forall (q r : list wakeup), [] = q ++ r -> r <> [] -> False).
  { intros q r H Hr. symmetry in H. apply app_eq_nil in H as [_ ->].
    now apply Hr. }
  induction script as [|e rest IH]; intros w Hw; simpl.
  - destruct (pred (this w)) eqn:P.
    + exists [], w. rewrite P, Hw. cbn [clock_after fold_left].
      repeat split; try reflexivity; try lia; try discriminate;
        intros; exfalso; eauto.
    + exists [], (expire t w). cbn [this expire steady_clock pending].
      rewrite P, Hw. repeat split; try reflexivity; try lia;
        try discriminate; intros; exfalso; eauto.
  - destruct (pred (this w)) eqn:P.
    + exists [], w. rewrite P, Hw. cbn [clock_after fold_left].
      repeat split; try reflexivity; try lia; try discriminate;
        intros; exfalso; eauto.
    + pose proof (wait_ends_bounds t (steady_clock w) e) as Hb.
      unfold status_at. cbn [steady_clock resume_by].
      destruct (Z.ltb_spec (wait_ends t (steady_clock w) e) t)
        as [Hlt | Hge].
      * destruct (IH (resume_by Max t e rest w) eq_refl)
          as (consumed & w' & Hr & Hs & Ht & Hpre & Htrue & Hfalse & Hclk).
        cbn [this steady_clock resume_by] in *.
        exists (e :: consumed), w'. rewrite Hr.
        split; [reflexivity|]. split; [cbn; now f_equal|].
        split; [exact Ht|]. split; [|split; [|split]].
        -- intros q r Hq Hne. destruct q as [|e' q].
           ++ split; [exact P | intros H; now elim H].
           ++ cbn in Hq. injection Hq as <- Hq.
              destruct (Hpre q r Hq Hne) as [Hp Hc].
              split; [exact Hp|]. intros _. cbn [clock_after fold_left].
              destruct q as [|e'' q]; [exact Hlt|].
              apply Hc. discriminate.
        -- intros Hp. cbn [clock_after fold_left]. now apply Htrue.
        -- intros Hp. destruct (Hfalse Hp) as [Hc _].
           split; [lia | discriminate].
        -- lia.
      * exists [e], (resume_by Max t e rest w).
        cbn [this steady_clock resume_by pending].
        split; [reflexivity|]. split; [reflexivity|].
        split; [reflexivity|]. split; [|split; [|split]].
        -- intros q r Hq Hne. destruct q as [|e' q].
           ++ split; [exact P | intros H; now elim H].
           ++ cbn in Hq. injection Hq as _ Hq.
              exfalso. eapply Hnil; eauto.
        -- intros _. reflexivity.
        -- intros _. split; [lia | discriminate].
        -- lia.
Qed.

End TimedWaits.

Section TimedAcquisitions.

Variable LeastMaxValue : Z.

Local Abbreviation Max := LeastMaxValue.

(** A timed acquisition in full.  It waits while it sees no permit and the
    clock is short of the deadline; it returns [true] at the first check
    that sees a permit, at the clock of that check, and [false] once the
    deadline is reached, at the deadline or, if that was already behind,
    with no time gone by and after one wait. *)
Lemma try_acquire_until_strong (abs_time : Z) (w : world) :
  m_lock (this w) = false ->
  exists b w' consumed,
    let seen := m_count (after_wakeups Max consumed (this w)) in
    try_acquire_until Max abs_time w = Returned b w' /\
    pending w = consumed ++ pending w' /\
    b = (0 <? seen) /\
    m_count (this w') =
      (if b then clamp (Ptrdiff.sub seen 1) 0 Max else seen) /\
    m_lock (this w') = false /\
    (forall q r, consumed = q ++ r -> r <> [] ->
       m_count (after_wakeups Max q (this w)) <= 0 /\
       (q <> [] -> clock_after abs_time q (steady_clock w) < abs_time)) /\
    (b = true ->
       steady_clock w' = clock_after abs_time consumed (steady_clock w)) /\
    (b = false ->
       steady_clock w' = Z.max (steady_clock w) abs_time /\
       (consumed = [] -> pending w = [])) /\
    steady_clock w <= steady_clock w' <= Z.max (steady_clock w) abs_time.
Proof.
  intros L. rewrite try_acquire_until_uncontended by exact L.
  destruct (wait_until_loop_strong Max has_permit abs_time (pending w)
              (on_this (set_lock true) w) eq_refl)
    as (consumed & w1 & -> & Hs & Ht & Hpre & Htrue & Hfalse & Hclk).
  cbn [this on_this steady_clock pending] in *.
  assert (Hseen : has_permit (this w1)
                  = (0 <? m_count (after_wakeups Max consumed (this w)))).
  { unfold has_permit. now rewrite Ht, after_wakeups_lock. }
  assert (Hcnt : m_count (this w1)
                 = m_count (after_wakeups Max consumed (this w)))
    by (now rewrite Ht, after_wakeups_lock).
  assert (Hpre' : forall q r, consumed = q ++ r -> r <> [] ->
            m_count (after_wakeups Max q (this w)) <= 0 /\
            (q <> [] -> clock_after abs_time q (steady_clock w) < abs_time)).
  { intros q r Hq Hne. destruct (Hpre q r Hq Hne) as [Hp Hc].
    unfold has_permit in Hp. rewrite after_wakeups_lock in Hp.
    apply Z.ltb_ge in Hp. now split. }
  destruct (has_permit (this w1)) eqn:P.
  - exists true, (on_this (fun s => set_lock false (sub_clamped Max s)) w1),
      consumed.
    cbv zeta. rewrite <- Hseen.
    cbn [this on_this steady_clock pending set_lock sub_clamped set_count
         m_count m_lock].
    rewrite Hcnt.
    split; [reflexivity|]. split; [exact Hs|]. split; [reflexivity|].
    split; [reflexivity|]. split; [reflexivity|]. split; [exact Hpre'|].
    split; [intros _; now apply Htrue|].
    split; [discriminate | exact Hclk].
  - exists false, (on_this (set_lock false) w1), consumed.
    cbv zeta. rewrite <- Hseen.
    cbn [this on_this steady_clock pending set_lock m_count m_lock].
    split; [reflexivity|]. split; [exact Hs|]. split; [reflexivity|].
    split; [exact Hcnt|]. split; [reflexivity|]. split; [exact Hpre'|].
    split; [discriminate|].
    split; [intros _; now apply Hfalse | exact Hclk].
Qed.

End TimedAcquisitions.

(** * The specification, property by property *)

Section Claims.

Variable LeastMaxValue : Z.

Local Abbreviation Max := LeastMaxValue.

(** C2: starting from a semaphore whose counter is in [[0, max]], after every
    call of every sequence of [release] (any update), [acquire],
    [try_acquire], [try_acquire_for], [try_acquire_until] and [max], however
    the call ends and whatever the other threads do during its waits, the
    counter is again in [[0, max]]. *)
Theorem count_in_range_after_every_call (cs : list call) (w : world) :
  in_range Max (this w) ->
  Forall (fun o => in_range Max (this (final o))) (run Max cs w).
Proof.
  revert w. induction cs as [|c cs IH]; intros w H; simpl.
  - constructor.
  - pose proof (exec_in_range Max c w H) as Hc.
    constructor; [exact Hc|].
    destruct (returns (exec Max c w)); [now apply IH | constructor].
Qed.

(** X12: for every starting counter in [[0, max]] and every update whose
    sum with the counter is representable as [std::ptrdiff_t],
    [release(update)] returns with the counter set to
    [clamp(count + update, 0, max)]: at or beyond [max] it is [max], at or
    below zero it is [0]; all waiters are notified and the mutex is free. *)
Theorem release_clamps_representable_sum (w : world) (update : Z) :
  m_lock (this w) = false ->
  in_range Max (this w) ->
  Ptrdiff.representable (m_count (this w) + update) ->
  exists w',
    release Max update w = Returned tt w' /\
    m_count (this w') = clamp (m_count (this w) + update) 0 Max /\
    (Max <= m_count (this w) + update -> m_count (this w') = Max) /\
    (m_count (this w) + update <= 0 -> m_count (this w') = 0) /\
    notified (m_cv (this w')) = S (notified (m_cv (this w))) /\
    m_lock (this w') = false.
Proof.
  intros L R Hsum. assert (HM : 0 <= Max) by (unfold in_range in R; lia).
  eexists. split; [apply release_uncontended, L|].
  cbn. unfold Ptrdiff.add. rewrite PtrdiffFacts.wrap_id by exact Hsum.
  repeat split.
  - intros Hge. now apply clamp_above.
  - intros Hle. destruct (clamp_below (m_count (this w) + update) 0 Max Hle);
      [assumption | lia].
Qed.

(** C5 (amended): [acquire] never throws or terminates: it returns or stays
    parked on the condition variable.  It returns only past a predicate
    check that saw [count > 0], storing [clamp(count - 1, 0, max)].  For
    every pre-state with [0 < count <= max + 1] it returns at once with the
    counter at [count - 1]. *)
Theorem acquire_takes_one_permit (w : world) :
  m_lock (this w) = false ->
  Ptrdiff.representable Max ->
  ((exists w', acquire Max w = Returned tt w') \/
   (exists w', acquire Max w = Suspended on_condition w' /\
               m_count (this w') <= 0)) /\
  (forall w', acquire Max w = Returned tt w' ->
     exists consumed,
       let seen := m_count (after_wakeups Max consumed (this w)) in
       pending w = consumed ++ pending w' /\
       0 < seen /\
       m_count (this w') = clamp (Ptrdiff.sub seen 1) 0 Max) /\
  (0 < m_count (this w) <= Max + 1 ->
     exists w', acquire Max w = Returned tt w' /\
                m_count (this w') = m_count (this w) - 1 /\
                pending w' = pending w /\
                m_lock (this w') = false).
Proof.
  intros L RM. split; [|split].
  - destruct (acquire_spec Max w L)
      as [(consumed & w' & E & _) | (w' & E & _ & Hle)].
    + left. now exists w'.
    + right. now exists w'.
  - intros w' E.
    destruct (acquire_spec Max w L)
      as [(consumed & w1 & E1 & Hs & Hp & Hc & _) | (w1 & E1 & _)];
      [|congruence].
    rewrite E in E1. injection E1 as <-.
    exists consumed. cbn zeta. now repeat split.
  - intros [Hpos Hle]. eexists. split; [apply acquire_immediate; assumption|].
    cbn. unfold Ptrdiff.sub. rewrite PtrdiffFacts.wrap_id.
    + rewrite clamp_inside by lia. now repeat split.
    + unfold Ptrdiff.representable, Ptrdiff.PTRDIFF_MIN, Ptrdiff.PTRDIFF_MAX
        in *. lia.
Qed.


(** With the deadline behind: the cases of [try_acquire_until]. *)
Lemma try_acquire_until_expired_cases (w : world) (abs_time : Z) :
  m_lock (this w) = false ->
  abs_time <= steady_clock w ->
  exists b w',
    try_acquire_until Max abs_time w = Returned b w' /\
    m_lock (this w') = false /\
    (0 < m_count (this w) ->
       b = true /\
       m_count (this w') = clamp (Ptrdiff.sub (m_count (this w)) 1) 0 Max /\
       pending w' = pending w /\
       steady_clock w' = steady_clock w) /\
    (m_count (this w) <= 0 ->
       let seen :=
         m_count (after_wakeups Max (firstn 1 (pending w)) (this w)) in
       pending w' = tl (pending w) /\
       b = (0 <? seen) /\
       m_count (this w') =
         (if b then clamp (Ptrdiff.sub seen 1) 0 Max else seen)) /\
    (m_count (this w) <= 0 -> quiet (firstn 1 (pending w)) ->
       b = false /\ m_count (this w') = m_count (this w)).
Proof.
  intros L Ht. rewrite try_acquire_until_uncontended by exact L.
  pose proof (wait_until_loop_expired Max has_permit abs_time
                (on_this (set_lock true) w) Ht) as E.
  cbn [pending on_this] in E. rewrite E. clear E.
  unfold has_permit. cbn [this on_this set_lock m_count].
  destruct (Z.ltb_spec 0 (m_count (this w))) as [Hpos | Hle].
  - eexists true, _. split; [reflexivity|]. cbn.
    repeat split; intros; lia.
  - destruct (pending w) as [|e rest] eqn:Ep.
    + cbn [this expire].
      destruct (Z.ltb_spec 0 (m_count (this w))) as [Hpos | _]; [lia|].
      eexists false, _. split; [reflexivity|]. cbn. rewrite Ep.
      destruct (Z.ltb_spec 0 (m_count (this w))) as [Hpos | _]; [lia|].
      repeat split; intros; try reflexivity; lia.
    + remember (m_count (apply_effects Max (others e)
                           (set_lock false (this w)))) as c1 eqn:Hc1.
      assert (Hq : quiet [e] -> c1 = m_count (this w)).
      { intros Q. inversion Q as [|? ? Qe _]. subst c1.
        rewrite Qe. reflexivity. }
      change (m_count (wake Max (set_lock true (this w)) e))
        with (m_count (apply_effects Max (others e)
                         (set_lock false (this w)))).
      rewrite <- Hc1.
      destruct (Z.ltb_spec 0 c1) as [Hpos | Hneg].
      * eexists true, _. split; [reflexivity|]. cbn.
        change (set_lock false (set_lock true (this w)))
          with (set_lock false (this w)).
        rewrite <- Hc1. apply Z.ltb_lt in Hpos as P. rewrite P.
        repeat split; intros; try reflexivity; try lia.
        -- specialize (Hq H0). lia.
        -- specialize (Hq H0). lia.
      * eexists false, _. split; [reflexivity|]. cbn.
        change (set_lock false (set_lock true (this w)))
          with (set_lock false (this w)).
        rewrite <- Hc1. apply Z.ltb_ge in Hneg as P. rewrite P.
        repeat split; intros; try reflexivity; try lia.
        exact (Hq H0).
Qed.

(** C3 (amended): with a deadline that has already passed,
    [try_acquire_until] returns at once: the clock reads on return what it
    read on entry, and at most one wait was made, which reported a timeout
    straight away.  If [count > 0] on entry it returns [true] without
    waiting, with the counter decremented by one, clamped.  Otherwise it
    returns what the predicate says after that single wait; when no other
    thread touched the object meanwhile, that is [false] with the counter
    unchanged. *)
Theorem try_acquire_until_expired_deadline (w : world) (abs_time : Z) :
  m_lock (this w) = false ->
  abs_time <= steady_clock w ->
  exists b w',
    try_acquire_until Max abs_time w = Returned b w' /\
    m_lock (this w') = false /\
    steady_clock w' = steady_clock w /\
    (0 < m_count (this w) ->
       b = true /\
       m_count (this w') = clamp (Ptrdiff.sub (m_count (this w)) 1) 0 Max /\
       pending w' = pending w /\
       steady_clock w' = steady_clock w) /\
    (m_count (this w) <= 0 ->
       let seen :=
         m_count (after_wakeups Max (firstn 1 (pending w)) (this w)) in
       pending w' = tl (pending w) /\
       b = (0 <? seen) /\
       m_count (this w') =
         (if b then clamp (Ptrdiff.sub seen 1) 0 Max else seen)) /\
    (m_count (this w) <= 0 -> quiet (firstn 1 (pending w)) ->
       b = false /\ m_count (this w') = m_count (this w)).
Proof.
  intros L Ht.
  destruct (try_acquire_until_expired_cases w abs_time L Ht)
    as (b & w' & E & Hl & Hpos & Hneg & Hquiet).
  destruct (try_acquire_until_strong Max abs_time w L)
    as (b0 & w0 & consumed & E0 & _ & _ & _ & _ & _ & _ & _ & Hclk).
  cbv zeta in E0. rewrite E in E0. injection E0 as _ <-.
  exists b, w'.
  split; [exact E|]. split; [exact Hl|]. split; [lia|].
  split; [exact Hpos|]. split; [exact Hneg | exact Hquiet].
Qed.

(** C8: [max()] returns [LeastMaxValue] and leaves the whole state (counter,
    mutex and condition variable) as it was; for [binary_semaphore] it
    returns 1. *)
Theorem max_is_the_bound_and_pure (w : world) :
  max Max w = Returned Max w /\
  final (max Max w) = w /\
  m_count (this (final (max Max w))) = m_count (this w) /\
  m_lock (this (final (max Max w))) = m_lock (this w) /\
  m_cv (this (final (max Max w))) = m_cv (this w) /\
  binary_semaphore_max w = Returned 1 w.
Proof.
  assert (E : max Max w = Returned Max w) by reflexivity.
  rewrite E. cbn [final]. repeat split.
Qed.

(** C9: the constructor stores [desired] as it is, for every [desired]; a
    [desired] below zero or above [max] therefore starts the semaphore
    outside [[0, max]].  The first store into the counter clamps it: after
    [release] with any update, and after any acquisition that returns
    having taken a permit, the counter is a clamped value, which lies in
    [[0, max]] when [0 <= max]. *)
Theorem constructor_stores_desired_unclamped
        (desired now : Z) (script : list wakeup) :
  m_count (counting_semaphore_ctor desired) = desired /\
  this (fresh desired now script) = counting_semaphore_ctor desired /\
  (desired < 0 \/ Max < desired ->
     ~ in_range Max (this (fresh desired now script))) /\
  (forall update,
     exists w', release Max update (fresh desired now script)
                = Returned tt w' /\
                m_count (this w')
                = clamp (Ptrdiff.add desired update) 0 Max /\
                (0 <= Max -> in_range Max (this w'))) /\
  (forall w', acquire Max (fresh desired now script) = Returned tt w' ->
              0 <= Max -> in_range Max (this w')) /\
  (forall t w', try_acquire_until Max t (fresh desired now script)
                = Returned true w' ->
                0 <= Max -> in_range Max (this w')) /\
  (forall d w', try_acquire_for Max d (fresh desired now script)
                = Returned true w' ->
                0 <= Max -> in_range Max (this w')).
Proof.
  assert (Htimed : forall t w',
            try_acquire_until Max t (fresh desired now script)
            = Returned true w' -> 0 <= Max -> in_range Max (this w')).
  { intros t w' E HM.
    destruct (try_acquire_until_spec Max t (fresh desired now script)
                eq_refl) as (consumed & w1 & E1 & _ & Hc & _).
    cbv zeta in *. rewrite E in E1. injection E1 as Hb <-.
    unfold in_range. rewrite Hc. cbn [this fresh]. rewrite <- Hb.
    now apply clamp_bounds. }
  split; [reflexivity|]. split; [reflexivity|]. split; [|split; [|split]].
  - intros H [H0 H1]. cbn in H0, H1. lia.
  - intros update. eexists. split; [now apply release_uncontended|].
    cbn. split; [reflexivity|]. intros HM. now apply clamp_bounds.
  - intros w' E HM.
    destruct (acquire_spec Max (fresh desired now script) eq_refl)
      as [(consumed & w1 & E1 & _ & _ & Hc & _) | (w1 & E1 & _)];
      [|congruence].
    rewrite E in E1. injection E1 as <-.
    unfold in_range. rewrite Hc. now apply clamp_bounds.
  - split; [exact Htimed|].
    intros d w'. rewrite try_acquire_for_until. apply Htimed.
Qed.

(** C10: in [try_acquire] the constructor of [lock] has taken the mutex
    before [lock.try_lock()] is called; [try_lock] on a lock object that
    owns its mutex throws [resource_deadlock_would_occur]; the function is
    [noexcept], so the process terminates.  The call never returns: with
    the mutex free on entry it ends in [std::terminate] with the counter
    untouched, and with the mutex taken it waits in the constructor. *)
Theorem try_acquire_never_returns (w : world) :
  (forall lock w1,
     unique_lock_ctor w = Returned lock w1 ->
     owns_lock lock = true /\
     m_lock (this w1) = true /\
     unique_lock_try_lock lock w1
     = Thrown resource_deadlock_would_occur w1) /\
  (forall b w', try_acquire Max w <> Returned b w') /\
  try_acquire Max w =
    (if m_lock (this w) then Suspended on_mutex w
     else Terminated (on_this (set_lock true) w)) /\
  m_count (this (final (try_acquire Max w))) = m_count (this w).
Proof.
  split; [|split; [|split]].
  - intros lock w1. unfold unique_lock_ctor, bind, mutex_lock, ret.
    destruct (m_lock (this w)); [discriminate|].
    intros E. injection E as <- <-. now repeat split.
  - intros b w'. rewrite try_acquire_eval.
    destruct (m_lock (this w)); discriminate.
  - apply try_acquire_eval.
  - rewrite try_acquire_eval. now destruct (m_lock (this w)).
Qed.

End Claims.

(** ** Releasing and acquiring in turn *)

Section RoundTrip.

Variable LeastMaxValue : Z.

Local Abbreviation Max := LeastMaxValue.

Hypothesis Max_representable : Ptrdiff.representable Max.

Lemma exec_release (update : Z) (w : world) :
  m_lock (this w) = false ->
  exec Max (call_release update) w =
  Returned v_void
    (on_this (fun s => set_lock false
                         (signal (add_clamped Max update (set_lock true s))))
             w).
Proof.
  intros L. unfold exec, bind. now rewrite release_uncontended.
Qed.

Lemma exec_acquire (w : world) :
  m_lock (this w) = false -> 0 < m_count (this w) ->
  exec Max call_acquire w =
  Returned v_void
    (on_this (fun s => set_lock false
                         (signal (sub_clamped Max (set_lock true s)))) w).
Proof.
  intros L Hc. unfold exec, bind. now rewrite acquire_immediate.
Qed.

Lemma run_releases (N : nat) :
  forall (c : Z) (w : world) (rest : list call),
    m_lock (this w) = false ->
    m_count (this w) = c ->
    0 <= c -> c + Z.of_nat N <= Max ->
    exists os w',
      run Max (repeat (call_release 1) N ++ rest) w = os ++ run Max rest w' /\
      length os = N /\
      Forall (fun o => returns o = true) os /\
      counts os = count_up c N /\
      m_lock (this w') = false /\
      m_count (this w') = c + Z.of_nat N /\
      pending w' = pending w.
Proof.
  induction N as [|N IH]; intros c w rest L Hc H0 HN.
  - exists [], w. cbn. repeat split; try easy. lia.
  - cbn [repeat app run]. rewrite exec_release by exact L.
    cbn [returns final].
    set (w1 := on_this _ w).
    assert (Hc1 : m_count (this w1) = c + 1).
    { cbn. rewrite Hc. unfold Ptrdiff.add.
      rewrite PtrdiffFacts.wrap_id, clamp_inside; [reflexivity | lia |].
      unfold Ptrdiff.representable, Ptrdiff.PTRDIFF_MIN, Ptrdiff.PTRDIFF_MAX
        in *. lia. }
    destruct (IH (c + 1) w1 rest eq_refl Hc1 ltac:(lia) ltac:(lia))
      as (os & w' & Hr & Hl & Hf & Hcs & Hlk & Hcnt & Hp).
    exists (Returned v_void w1 :: os), w'. rewrite Hr.
    repeat split; cbn.
    + now rewrite Hl.
    + constructor; [reflexivity | exact Hf].
    + fold (counts os). rewrite Hcs. f_equal. exact Hc1.
    + exact Hlk.
    + lia.
    + exact Hp.
Qed.

Lemma run_acquires (N : nat) :
  forall (c : Z) (w : world) (rest : list call),
    m_lock (this w) = false ->
    m_count (this w) = c ->
    Z.of_nat N <= c -> c <= Max ->
    exists os w',
      run Max (repeat call_acquire N ++ rest) w = os ++ run Max rest w' /\
      length os = N /\
      Forall (fun o => returns o = true) os /\
      counts os = count_down c N /\
      m_lock (this w') = false /\
      m_count (this w') = c - Z.of_nat N /\
      pending w' = pending w.
Proof.
  induction N as [|N IH]; intros c w rest L Hc H0 HN.
  - exists [], w. cbn. repeat split; try easy. lia.
  - cbn [repeat app run]. rewrite exec_acquire by (try exact L; lia).
    cbn [returns final].
    set (w1 := on_this _ w).
    assert (Hc1 : m_count (this w1) = c - 1).
    { cbn. rewrite Hc. unfold Ptrdiff.sub.
      rewrite PtrdiffFacts.wrap_id, clamp_inside; [reflexivity | lia |].
      unfold Ptrdiff.representable, Ptrdiff.PTRDIFF_MIN, Ptrdiff.PTRDIFF_MAX
        in *. lia. }
    destruct (IH (c - 1) w1 rest eq_refl Hc1 ltac:(lia) ltac:(lia))
      as (os & w' & Hr & Hl & Hf & Hcs & Hlk & Hcnt & Hp).
    exists (Returned v_void w1 :: os), w'. rewrite Hr.
    repeat split; cbn.
    + now rewrite Hl.
    + constructor; [reflexivity | exact Hf].
    + fold (counts os). rewrite Hcs. f_equal. exact Hc1.
    + exact Hlk.
    + lia.
    + exact Hp.
Qed.

(** A probe that checks the predicate finds an empty semaphore empty. *)
Lemma probe_empty (abs_time : Z) (w : world) :
  m_lock (this w) = false -> m_count (this w) = 0 -> quiet (pending w) ->
  exists w', try_acquire_until Max abs_time w = Returned false w' /\
             m_count (this w') = 0.
Proof.
  intros L Hc Q.
  destruct (try_acquire_until_spec Max abs_time w L)
    as (consumed & w' & E & Hs & Hcnt & _). cbv zeta in *.
  rewrite Hs in Q. apply quiet_prefix in Q.
  rewrite (after_wakeups_quiet Max consumed (this w) Q), Hc in E, Hcnt.
  exists w'. now split.
Qed.

(** C7: starting from [count == 0] with no other thread acting, for every
    [N <= max], [N] calls of [release(1)] followed by [N] calls of [acquire]
    all return; the counter climbs 1, ..., N and then falls N-1, ..., 0, one
    permit per [acquire]; and a following probe that checks the predicate
    ([try_acquire_for] or [try_acquire_until]) returns [false] with the
    counter at 0. *)
Theorem release_acquire_round_trip
        (N : nat) (w : world) (probe : call) (rel_time abs_time : Z) :
  m_lock (this w) = false ->
  m_count (this w) = 0 ->
  Z.of_nat N <= Max ->
  quiet (pending w) ->
  probe = call_try_acquire_for rel_time \/
  probe = call_try_acquire_until abs_time ->
  exists os w',
    run Max (repeat (call_release 1) N ++ repeat call_acquire N ++ [probe]) w
    = os ++ [Returned (v_bool false) w'] /\
    length os = (N + N)%nat /\
    Forall (fun o => returns o = true) os /\
    counts os = count_up 0 N ++ count_down (Z.of_nat N) N /\
    m_count (this w') = 0.
Proof.
  intros L Hc HN Q Hprobe.
  destruct (run_releases N 0 w (repeat call_acquire N ++ [probe])
              L Hc ltac:(lia) ltac:(lia))
    as (os1 & w1 & Hr1 & Hl1 & Hf1 & Hc1 & Hlk1 & Hcnt1 & Hp1).
  destruct (run_acquires N (Z.of_nat N) w1 [probe]
              Hlk1 ltac:(lia) ltac:(lia) HN)
    as (os2 & w2 & Hr2 & Hl2 & Hf2 & Hc2 & Hlk2 & Hcnt2 & Hp2).
  assert (Hq2 : quiet (pending w2)) by (rewrite Hp2, Hp1; exact Q).
  assert (Hz2 : m_count (this w2) = 0) by lia.
  assert (Hlast : exists w',
            run Max [probe] w2 = [Returned (v_bool false) w'] /\
            m_count (this w') = 0).
  { destruct Hprobe as [-> | ->]; cbn [run exec]; unfold bind.
    - rewrite try_acquire_for_until.
      destruct (probe_empty (Chrono.plus (steady_clock w2) rel_time) w2
                  Hlk2 Hz2 Hq2)
        as (w' & -> & Hw'). now exists w'.
    - destruct (probe_empty abs_time w2 Hlk2 Hz2 Hq2)
        as (w' & -> & Hw'). now exists w'. }
  destruct Hlast as (w' & Hr3 & Hw').
  exists (os1 ++ os2), w'.
  rewrite Hr1, Hr2, Hr3, app_assoc.
  repeat split.
  - rewrite length_app. lia.
  - apply Forall_app. now split.
  - unfold counts in *. rewrite map_app. now rewrite Hc1, Hc2.
  - exact Hw'.
Qed.

End RoundTrip.

(** * Concrete runs *)

(** The scenario of a bound-3 semaphore starting at 0: [release(2)], two
    [acquire]s, then a timed probe that must time out. *)
Example scenario_bound_3 :
  map (fun o => (returns o, m_count (this (final o))))
      (run 3 [call_release 2; call_acquire; call_acquire;
              call_try_acquire_for 10] (fresh 0 0 []))
  = [(true, 2); (true, 1); (true, 0); (true, 0)]
  /\ try_acquire_for 3 10 (fresh 0 0 [])
     = Returned false (fresh 0 10 []).
Proof. split; reflexivity. Qed.

(** [acquire] on an empty semaphore: parked for good when nobody releases;
    through after a spurious wake-up followed by another thread's
    [release(1)]. *)
Example acquire_waits_for_release :
  acquire 3 (fresh 0 0 []) = Suspended on_condition (fresh 0 0 [])
  /\ exists w',
       acquire 3 (fresh 0 0 [ {| elapsed := 1; others := [] |};
                              {| elapsed := 4; others := [by_release 1] |} ])
       = Returned tt w'
       /\ m_count (this w') = 0 /\ steady_clock w' = 5 /\ pending w' = [].
Proof. split; [reflexivity | eexists; repeat split]. Qed.

(** A competing acquirer can take the permit first: the timed call then
    sees none at its last check. *)
Example try_acquire_for_loses_race :
  try_acquire_for 3 10
    (fresh 0 0 [ {| elapsed := 2; others := [by_release 1; by_acquire] |} ])
  = Returned false
      {| this := {| m_count := 0; m_cv := {| notified := 2 |};
                    m_lock := false |};
         steady_clock := 10; pending := [] |}.
Proof. reflexivity. Qed.

(** A timed call sits out a spurious wake-up and takes the permit another
    thread releases before the deadline, at the time of that wake-up. *)
Example try_acquire_for_waits_for_release :
  try_acquire_for 3 200
    (fresh 0 0 [ {| elapsed := 10; others := [] |};
                 {| elapsed := 10; others := [by_release 1] |} ])
  = Returned true
      {| this := {| m_count := 0; m_cv := {| notified := 1 |};
                    m_lock := false |};
         steady_clock := 20; pending := [] |}.
Proof. reflexivity. Qed.

(** With the deadline behind, a wait does not last: the wake-up that would
    have come much later is cut short by the timeout. *)
Example try_acquire_until_expired_returns_at_once :
  try_acquire_until 1 5
    (fresh 0 10 [ {| elapsed := 1000000; others := [] |} ])
  = Returned false (fresh 0 10 []).
Proof. reflexivity. Qed.

(** A [rel_time] so large that [now() + rel_time] leaves the clock's 64-bit
    count gives a deadline in the past: the call fails at once. *)
Example try_acquire_for_huge_rel_time :
  try_acquire_for 3 Ptrdiff.PTRDIFF_MAX (fresh 0 5 [])
  = Returned false (fresh 0 5 []).
Proof. reflexivity. Qed.

(** C1 (the code at the failing input): on a bound-3 semaphore holding 2
    permits, and on an empty one, with the mutex free, [try_acquire] does
    not decrement and return [true]: it ends in [std::terminate] with the
    counter as it was and the mutex still held. *)
Example try_acquire_uncontended_terminates :
  m_lock (this (fresh 2 0 [])) = false /\
  try_acquire 3 (fresh 2 0 [])
  = Terminated
      {| this := {| m_count := 2; m_cv := {| notified := 0 |};
                    m_lock := true |};
         steady_clock := 0; pending := [] |} /\
  try_acquire 3 (fresh 0 0 [])
  = Terminated
      {| this := {| m_count := 0; m_cv := {| notified := 0 |};
                    m_lock := true |};
         steady_clock := 0; pending := [] |} /\
  (forall w', try_acquire 3 (fresh 2 0 []) <> Returned true w').
Proof. repeat split. intros w'. discriminate. Qed.

(** ** Where the stated property fails *)

(** C3 as stated fails: [binary_semaphore] holding one permit, clock at 10,
    deadline 5.  The call returns [true] and takes the permit. *)
Lemma try_acquire_until_expired_takes_permit :
  5 <= steady_clock (fresh 1 10 []) /\
  try_acquire_until 1 5 (fresh 1 10 [])
  = Returned true (fresh 0 10 []) /\
  ~ (exists w',
       try_acquire_until 1 5 (fresh 1 10 []) = Returned false w' /\
       m_count (this w') = m_count (this (fresh 1 10 []))).
Proof.
  split; [cbn; lia|]. split; [reflexivity|].
  intros (w' & E & _). discriminate E.
Qed.

(** C4 (the code at the failing input): [binary_semaphore] at
    [count == max == 1], [release(PTRDIFF_MAX)].  The sum [m_count + update]
    overflows [std::ptrdiff_t] before [std::clamp] sees it; the wrapped sum
    is negative and the clamp stores 0, where the cap at [max] was meant. *)
Lemma release_overflow_misses_max :
  in_range 1 (this (fresh 1 0 [])) /\
  release 1 Ptrdiff.PTRDIFF_MAX (fresh 1 0 [])
  = Returned tt
      {| this := {| m_count := 0; m_cv := {| notified := 1 |};
                    m_lock := false |};
         steady_clock := 0; pending := [] |} /\
  clamp (m_count (this (fresh 1 0 [])) + Ptrdiff.PTRDIFF_MAX) 0 1 = 1 /\
  ~ (exists w',
       release 1 Ptrdiff.PTRDIFF_MAX (fresh 1 0 []) = Returned tt w' /\
       m_count (this w')
       = clamp (m_count (this (fresh 1 0 [])) + Ptrdiff.PTRDIFF_MAX) 0 1).
Proof.
  split; [unfold in_range; cbn; lia|]. split; [reflexivity|].
  split; [reflexivity|].
  intros (w' & E & Hc). vm_compute in E. injection E as <-.
  vm_compute in Hc. discriminate Hc.
Qed.

(** C5 as stated fails: [binary_semaphore] constructed with 3.  [acquire]
    passes the check [3 > 0] and the clamp at [max] stores 1, not 2. *)
Lemma acquire_above_max_clamps :
  0 < m_count (this (fresh 3 0 [])) /\
  acquire 1 (fresh 3 0 [])
  = Returned tt
      {| this := {| m_count := 1; m_cv := {| notified := 1 |};
                    m_lock := false |};
         steady_clock := 0; pending := [] |} /\
  ~ (exists w',
       acquire 1 (fresh 3 0 []) = Returned tt w' /\
       m_count (this w') = m_count (this (fresh 3 0 [])) - 1).
Proof.
  split; [cbn; lia|]. split; [reflexivity|].
  intros (w' & E & Hc). vm_compute in E. injection E as <-.
  vm_compute in Hc. discriminate Hc.
Qed.

(** ** The theorems at concrete inputs *)

Lemma count_in_range_witness :
  in_range 3 (this (fresh 1 0 [])) /\
  Forall (fun o => in_range 3 (this (final o)))
         (run 3 [call_release 5; call_acquire; call_try_acquire_for 2;
                 call_try_acquire_until 1; call_max; call_try_acquire]
              (fresh 1 0 [])).
Proof.
  assert (H : in_range 3 (this (fresh 1 0 [])))
    by (unfold in_range; cbn; lia).
  split; [exact H | exact (count_in_range_after_every_call 3 _ _ H)].
Defined.

Lemma try_acquire_until_expired_witness :
  m_lock (this (fresh 0 10 [ {| elapsed := 1000000; others := [] |} ]))
  = false /\
  5 <= steady_clock (fresh 0 10 [ {| elapsed := 1000000; others := [] |} ])
  /\
  exists b w',
    try_acquire_until 1 5
      (fresh 0 10 [ {| elapsed := 1000000; others := [] |} ])
    = Returned b w' /\
    m_lock (this w') = false /\
    steady_clock w' = 10 /\
    (0 < 0 ->
       b = true /\
       m_count (this w') = clamp (Ptrdiff.sub 0 1) 0 1 /\
       pending w' = [ {| elapsed := 1000000; others := [] |} ] /\
       steady_clock w' = 10) /\
    (0 <= 0 ->
       let seen :=
         m_count (after_wakeups 1 [ {| elapsed := 1000000; others := [] |} ]
                                (counting_semaphore_ctor 0)) in
       pending w' = [] /\
       b = (0 <? seen) /\
       m_count (this w') =
         (if b then clamp (Ptrdiff.sub seen 1) 0 1 else seen)) /\
    (0 <= 0 -> quiet [ {| elapsed := 1000000; others := [] |} ] ->
       b = false /\ m_count (this w') = 0).
Proof.
  assert (H : 5 <= steady_clock
                     (fresh 0 10 [ {| elapsed := 1000000; others := [] |} ]))
    by (cbn; lia).
  split; [reflexivity|]. split; [exact H|].
  exact (try_acquire_until_expired_deadline 1
           (fresh 0 10 [ {| elapsed := 1000000; others := [] |} ]) 5
           eq_refl H).
Defined.

Lemma release_clamps_witness :
  m_lock (this (fresh 2 0 [])) = false /\
  in_range 3 (this (fresh 2 0 [])) /\
  Ptrdiff.representable (m_count (this (fresh 2 0 [])) + 5) /\
  exists w',
    release 3 5 (fresh 2 0 []) = Returned tt w' /\
    m_count (this w') = clamp (m_count (this (fresh 2 0 [])) + 5) 0 3 /\
    (3 <= m_count (this (fresh 2 0 [])) + 5 -> m_count (this w') = 3) /\
    (m_count (this (fresh 2 0 [])) + 5 <= 0 -> m_count (this w') = 0) /\
    notified (m_cv (this w'))
    = S (notified (m_cv (this (fresh 2 0 [])))) /\
    m_lock (this w') = false.
Proof.
  assert (R : in_range 3 (this (fresh 2 0 [])))
    by (unfold in_range; cbn; lia).
  assert (S : Ptrdiff.representable (m_count (this (fresh 2 0 [])) + 5))
    by (unfold Ptrdiff.representable, Ptrdiff.PTRDIFF_MIN,
          Ptrdiff.PTRDIFF_MAX; cbn; lia).
  split; [reflexivity|]. split; [exact R|]. split; [exact S|].
  exact (release_clamps_representable_sum 3 (fresh 2 0 []) 5 eq_refl R S).
Defined.

Lemma acquire_takes_one_permit_witness :
  m_lock (this (fresh 2 0 [])) = false /\
  Ptrdiff.representable 3 /\
  exists w', acquire 3 (fresh 2 0 []) = Returned tt w' /\
             m_count (this w') = m_count (this (fresh 2 0 [])) - 1 /\
             pending w' = pending (fresh 2 0 []) /\
             m_lock (this w') = false.
Proof.
  assert (R : Ptrdiff.representable 3)
    by (unfold Ptrdiff.representable, Ptrdiff.PTRDIFF_MIN,
          Ptrdiff.PTRDIFF_MAX; lia).
  split; [reflexivity|]. split; [exact R|].
  apply (acquire_takes_one_permit 3 (fresh 2 0 []) eq_refl R).
  cbn; lia.
Defined.


Lemma release_acquire_round_trip_witness :
  Ptrdiff.representable 3 /\
  m_lock (this (fresh 0 0 [])) = false /\
  m_count (this (fresh 0 0 [])) = 0 /\
  Z.of_nat 2 <= 3 /\
  quiet (pending (fresh 0 0 [])) /\
  exists os w',
    run 3 (repeat (call_release 1) 2 ++ repeat call_acquire 2
           ++ [call_try_acquire_for 10]) (fresh 0 0 [])
    = os ++ [Returned (v_bool false) w'] /\
    length os = (2 + 2)%nat /\
    Forall (fun o => returns o = true) os /\
    counts os = count_up 0 2 ++ count_down (Z.of_nat 2) 2 /\
    m_count (this w') = 0.
Proof.
  assert (R : Ptrdiff.representable 3)
    by (unfold Ptrdiff.representable, Ptrdiff.PTRDIFF_MIN,
          Ptrdiff.PTRDIFF_MAX; lia).
  assert (HN : Z.of_nat 2 <= 3) by (cbn; lia).
  assert (Q : quiet (pending (fresh 0 0 []))) by constructor.
  split; [exact R|]. split; [reflexivity|]. split; [reflexivity|].
  split; [exact HN|]. split; [exact Q|].
  exact (release_acquire_round_trip 3 R 2 (fresh 0 0 [])
           (call_try_acquire_for 10) 10 0 eq_refl eq_refl HN Q
           (or_introl eq_refl)).
Defined.

(** * Further properties of the member functions *)

(** ** Waiting: deadlines and wake-ups *)

Section WaitFacts.

Variable LeastMaxValue : Z.
Variable pred : counting_semaphore -> bool.

Local Abbreviation Max := LeastMaxValue.

(** The timed loop gives up only with the deadline behind it. *)
Lemma wait_until_loop_false_late (t : Z) (script : list wakeup) :
  forall w w',
    wait_until_loop Max pred t script w = Returned false w' ->
    t <= steady_clock w' /\ pred (this w') = false.
Proof.
  induction script as [|e rest IH]; intros w w'; simpl;
    destruct (pred (this w)) eqn:P; try discriminate.
  - intros E. inversion E; subst. split; [cbn; lia | exact P].
  - unfold status_at.
    destruct (Z.ltb_spec (steady_clock (resume_by Max t e rest w)) t)
      as [Hlt | Hge].
    + apply IH.
    + intros E. injection E as Hb Hw. subst w'.
      split; [exact Hge | exact Hb].
Qed.

(** The untimed loop returns exactly when some wake-up, or the entry itself,
    shows the predicate true. *)
Lemma wait_loop_returns_iff (script : list wakeup) :
  forall w,
    (exists w', wait_loop Max pred script w = Returned tt w') <->
    (exists p rest,
        script = p ++ rest /\ pred (after_wakeups Max p (this w)) = true).
Proof.
  induction script as [|e script IH]; intros w; simpl.
  - destruct (pred (this w)) eqn:P; split.
    + intros _. now exists [], [].
    + intros _. now exists w.
    + intros (w' & E). discriminate E.
    + intros (p & rest & Hs & Hp).
      symmetry in Hs. apply app_eq_nil in Hs as [-> _].
      cbn in Hp. congruence.
  - destruct (pred (this w)) eqn:P; split.
    + intros _. now exists [], (e :: script).
    + intros _. now exists w.
    + intros H. apply IH in H as (p & rest & Hs & Hp).
      exists (e :: p), rest. split; [cbn; now f_equal | exact Hp].
    + intros (p & rest & Hs & Hp). apply IH.
      destruct p as [|e' p]; [cbn in Hp; congruence|].
      cbn in Hs. injection Hs as <- Hs.
      now exists p, rest.
Qed.

End WaitFacts.

Section TimedFacts.

Variable LeastMaxValue : Z.

Local Abbreviation Max := LeastMaxValue.

Lemma timed_out_late (abs_time : Z) (w w' : world) :
  try_acquire_until Max abs_time w = Returned false w' ->
  abs_time <= steady_clock w' /\
  m_count (this w') <= 0 /\
  m_lock (this w') = false.
Proof.
  destruct (m_lock (this w)) eqn:L.
  { enter_call. rewrite L. discriminate. }
  rewrite try_acquire_until_uncontended by exact L.
  destruct (wait_until_loop Max has_permit abs_time (pending w)
              (on_this (set_lock true) w)) as [[|] w1 | | |] eqn:E;
    try discriminate.
  intros H. injection H as <-.
  apply wait_until_loop_false_late in E as [Ht Hp].
  unfold has_permit in Hp. apply Z.ltb_ge in Hp.
  now repeat split.
Qed.

(** X4: [try_acquire_until] reports failure only when the deadline has been
    reached: if it returns [false], the clock reads [abs_time] or later, the
    counter it leaves holds no permit, and the mutex is free.  Spurious
    wake-ups before the deadline never make it give up. *)
Theorem try_acquire_until_fails_only_after_deadline
        (abs_time : Z) (w w' : world) :
  try_acquire_until Max abs_time w = Returned false w' ->
  abs_time <= steady_clock w' /\
  m_count (this w') <= 0 /\
  m_lock (this w') = false.
Proof. apply timed_out_late. Qed.

(** X5: [try_acquire_for] reports failure only after the whole of
    [rel_time] has gone by on the steady clock since the call, provided the
    deadline [now() + rel_time] fits the clock's 64-bit count: if it then
    returns [false], at least [rel_time] has elapsed and the counter holds
    no permit.  (A [rel_time] too large for that wraps into a deadline
    already behind.) *)
Theorem try_acquire_for_fails_only_after_rel_time
        (rel_time : Z) (w w' : world) :
  Chrono.representable (steady_clock w + rel_time) ->
  try_acquire_for Max rel_time w = Returned false w' ->
  rel_time <= steady_clock w' - steady_clock w /\
  m_count (this w') <= 0 /\
  m_lock (this w') = false.
Proof.
  intros R. rewrite try_acquire_for_until. unfold Chrono.plus.
  rewrite PtrdiffFacts.wrap_id by exact R. intros E.
  apply timed_out_late in E as (Ht & Hc & Hl).
  repeat split; [lia | exact Hc | exact Hl].
Qed.

(** X6: [acquire] returns exactly when a permit is in sight on entry or at
    one of the wake-ups of its wait; otherwise it stays parked on the
    condition variable.  No wake-up that shows a permit is missed, and no
    spurious one lets it through. *)
Theorem acquire_returns_iff_permit_shows (w : world) :
  m_lock (this w) = false ->
  ((exists w', acquire Max w = Returned tt w') <->
   (exists p rest,
       pending w = p ++ rest /\
       0 < m_count (after_wakeups Max p (this w)))) /\
  ((forall p rest, pending w = p ++ rest ->
                   m_count (after_wakeups Max p (this w)) <= 0) ->
   exists w', acquire Max w = Suspended on_condition w').
Proof.
  intros L.
  assert (Hiff : (exists w', acquire Max w = Returned tt w') <->
                 (exists p rest,
                     pending w = p ++ rest /\
                     0 < m_count (after_wakeups Max p (this w)))).
  { rewrite acquire_uncontended by exact L.
    pose proof (wait_loop_returns_iff Max has_permit (pending w)
                  (on_this (set_lock true) w)) as H.
    cbn [this on_this] in H. split.
    - intros (w' & E).
      destruct (wait_loop Max has_permit (pending w)
                  (on_this (set_lock true) w)) as [[] w1 | | |] eqn:E1;
        try discriminate.
      destruct (proj1 H (ex_intro _ w1 eq_refl)) as (p & rest & Hs & Hp).
      exists p, rest. split; [exact Hs|].
      unfold has_permit in Hp. rewrite after_wakeups_lock in Hp.
      now apply Z.ltb_lt.
    - intros (p & rest & Hs & Hp).
      destruct (proj2 H) as (w1 & E1).
      { exists p, rest. split; [exact Hs|].
        unfold has_permit. rewrite after_wakeups_lock.
        now apply Z.ltb_lt. }
      rewrite E1. eexists. reflexivity. }
  split; [exact Hiff|].
  intros Hnone.
  destruct (acquire_spec Max w L)
    as [(consumed & w' & E & _) | (w' & E & _)].
  - exfalso. destruct (proj1 Hiff (ex_intro _ w' E)) as (p & rest & Hs & Hp).
    specialize (Hnone p rest Hs). lia.
  - now exists w'.
Qed.

End TimedFacts.

(** ** Permits: how [release] and the acquisitions compose *)

Lemma clamp_min (v hi : Z) : 0 <= v -> 0 <= hi -> clamp v 0 hi = Z.min v hi.
Proof.
  intros Hv Hh. unfold clamp.
  destruct (Z.ltb_spec v 0); [lia|].
  destruct (Z.ltb_spec hi v); lia.
Qed.

Section PermitFacts.

Variable LeastMaxValue : Z.

Local Abbreviation Max := LeastMaxValue.

Hypothesis Max_representable : Ptrdiff.representable Max.

Ltac fits :=
  unfold Ptrdiff.representable, Ptrdiff.PTRDIFF_MIN, Ptrdiff.PTRDIFF_MAX,
    in_range in *; lia.

(** X1: permits released in two steps add up like permits released at
    once: for updates [a, b >= 0] whose total fits [std::ptrdiff_t],
    [release(a); release(b)] and [release(a + b)] leave the same counter,
    [min(count + a + b, max)]. *)
Theorem release_twice_is_release_of_sum (w : world) (a b : Z) :
  m_lock (this w) = false ->
  in_range Max (this w) ->
  0 <= a -> 0 <= b ->
  Ptrdiff.representable (m_count (this w) + a + b) ->
  exists w1 w2 w12,
    release Max a w = Returned tt w1 /\
    release Max b w1 = Returned tt w2 /\
    release Max (a + b) w = Returned tt w12 /\
    m_count (this w2) = m_count (this w12) /\
    m_count (this w12) = Z.min (m_count (this w) + a + b) Max.
Proof.
  intros L R Ha Hb Hsum.
  eexists _, _, _.
  split; [now apply release_uncontended|].
  split; [now apply release_uncontended|].
  split; [now apply release_uncontended|].
  cbn. unfold Ptrdiff.add.
  rewrite (PtrdiffFacts.wrap_id (m_count (this w) + a)) by fits.
  rewrite (clamp_min (m_count (this w) + a)) by fits.
  rewrite (PtrdiffFacts.wrap_id (Z.min (m_count (this w) + a) Max + b))
    by fits.
  rewrite (PtrdiffFacts.wrap_id (m_count (this w) + (a + b))) by fits.
  rewrite !clamp_min by fits.
  split; lia.
Qed.

(** X2: a permit released into a full semaphore is lost.  From a counter in
    [[0, max]] with [1 <= max < PTRDIFF_MAX], [release(1)] followed by
    [acquire] returns at once and leaves [min(count, max - 1)]: the counter
    is restored when [count < max], and one short when [count == max]. *)
Theorem release_then_acquire (w : world) :
  m_lock (this w) = false ->
  in_range Max (this w) ->
  1 <= Max < Ptrdiff.PTRDIFF_MAX ->
  exists w1 w2,
    release Max 1 w = Returned tt w1 /\
    acquire Max w1 = Returned tt w2 /\
    pending w2 = pending w /\
    m_count (this w2) = Z.min (m_count (this w)) (Max - 1).
Proof.
  intros L R HM.
  assert (Hc1 : clamp (Ptrdiff.add (m_count (this w)) 1) 0 Max
                = Z.min (m_count (this w) + 1) Max).
  { unfold Ptrdiff.add. rewrite PtrdiffFacts.wrap_id by fits.
    apply clamp_min; fits. }
  eexists _, _.
  split; [now apply release_uncontended|].
  split.
  - apply acquire_immediate; [reflexivity|]. cbn. rewrite Hc1. fits.
  - cbn. rewrite Hc1. unfold Ptrdiff.sub.
    rewrite PtrdiffFacts.wrap_id by fits.
    rewrite clamp_min by fits. split; [reflexivity | lia].
Qed.

(** X3: taking a permit and giving it back restores the counter.  From a
    counter with [0 < count <= max], [acquire] followed by [release(1)]
    both return without waiting and leave [count] as it was. *)
Theorem acquire_then_release (w : world) :
  m_lock (this w) = false ->
  0 < m_count (this w) <= Max ->
  exists w1 w2,
    acquire Max w = Returned tt w1 /\
    release Max 1 w1 = Returned tt w2 /\
    pending w2 = pending w /\
    m_count (this w2) = m_count (this w).
Proof.
  intros L R.
  eexists _, _.
  split; [apply acquire_immediate; [exact L | lia]|].
  split; [now apply release_uncontended|].
  cbn. unfold Ptrdiff.sub, Ptrdiff.add.
  rewrite (PtrdiffFacts.wrap_id (m_count (this w) - 1)) by fits.
  rewrite (clamp_inside (m_count (this w) - 1)) by lia.
  rewrite PtrdiffFacts.wrap_id by fits.
  rewrite clamp_inside by lia. split; [reflexivity | lia].
Qed.

(** X9: while the invariant holds, a timed acquisition takes exactly one
    permit or none, never a clamped amount: [try_acquire_until] returns
    [true] exactly when its last check saw a counter [seen > 0], leaving
    [seen - 1], and [false] leaving [seen]; [seen] itself is in
    [[0, max]] whatever the other threads did. *)
Theorem try_acquire_until_takes_one_or_none (w : world) (abs_time : Z) :
  m_lock (this w) = false ->
  in_range Max (this w) ->
  exists b w' consumed,
    let seen := m_count (after_wakeups Max consumed (this w)) in
    try_acquire_until Max abs_time w = Returned b w' /\
    pending w = consumed ++ pending w' /\
    0 <= seen <= Max /\
    (b = true <-> 0 < seen) /\
    m_count (this w') = seen - (if b then 1 else 0).
Proof.
  intros L R.
  destruct (try_acquire_until_spec Max abs_time w L)
    as (consumed & w' & E & Hs & Hc & _). cbv zeta in *.
  pose proof (in_range_after_wakeups Max consumed (this w) R) as Hr.
  unfold in_range in Hr.
  exists (0 <? m_count (after_wakeups Max consumed (this w))), w', consumed.
  cbv zeta. split; [exact E|]. split; [exact Hs|]. split; [exact Hr|].
  rewrite Hc.
  destruct (Z.ltb_spec 0 (m_count (after_wakeups Max consumed (this w))))
    as [Hpos | Hneg].
  - split; [tauto|]. unfold Ptrdiff.sub.
    rewrite PtrdiffFacts.wrap_id by fits. apply clamp_inside. lia.
  - split; [|lia]. split; [discriminate | lia].
Qed.

(** [acquire] with no permit and nobody releasing stays parked. *)
Lemma acquire_parks_without_permit (w : world) :
  m_lock (this w) = false ->
  m_count (this w) <= 0 ->
  quiet (pending w) ->
  exists w', acquire Max w = Suspended on_condition w' /\
             m_count (this w') = m_count (this w).
Proof.
  intros L Hc Q.
  destruct (acquire_spec Max w L)
    as [(consumed & w' & _ & Hs & Hp & _) | (w' & E & Hcnt & _)].
  - exfalso. cbv zeta in Hp. rewrite Hs in Q. apply quiet_prefix in Q.
    rewrite (after_wakeups_quiet Max consumed (this w) Q) in Hp. lia.
  - exists w'. split; [exact E|].
    now rewrite Hcnt, (after_wakeups_quiet Max (pending w) (this w) Q).
Qed.

(** X10: a semaphore holding [c] permits admits exactly [c] acquirers.  With
    [count == c <= max] and nobody releasing, the first [c] of [c + 1]
    calls of [acquire] return, taking the counter down to 0 one by one, and
    the next one stays parked on the condition variable. *)
Theorem permits_bound_admission (c : nat) (w : world) :
  m_lock (this w) = false ->
  m_count (this w) = Z.of_nat c ->
  Z.of_nat c <= Max ->
  quiet (pending w) ->
  exists os w',
    run Max (repeat call_acquire (S c)) w
    = os ++ [Suspended on_condition w'] /\
    length os = c /\
    Forall (fun o => returns o = true) os /\
    counts os = count_down (Z.of_nat c) c /\
    m_count (this w') = 0.
Proof.
  intros L Hc HM Q.
  destruct (run_acquires Max Max_representable c (Z.of_nat c) w
              [call_acquire] L Hc ltac:(lia) HM)
    as (os & w1 & Hr & Hl & Hf & Hcs & Hlk & Hcnt & Hp).
  destruct (acquire_parks_without_permit w1 Hlk ltac:(lia)
              ltac:(rewrite Hp; exact Q)) as (w' & E & Hw').
  exists os, w'.
  change (repeat call_acquire (S c)) with (call_acquire :: repeat call_acquire c).
  rewrite repeat_cons, Hr. cbn [run exec]. unfold bind. rewrite E.
  cbn [returns]. repeat split; try assumption. lia.
Qed.

End PermitFacts.

(** ** The mutex and the notifications *)

Section LockFacts.

Variable LeastMaxValue : Z.

Local Abbreviation Max := LeastMaxValue.

Lemma m_cv_after_wakeups_quiet (es : list wakeup) (s : counting_semaphore) :
  quiet es -> m_cv (after_wakeups Max es s) = m_cv s.
Proof.
  intros Q. revert s. induction Q as [|e es He _ IH]; intros s; simpl.
  - reflexivity.
  - rewrite IH. unfold wake. rewrite He. reflexivity.
Qed.

(** What each call does with the mutex, and how it can end. *)
Lemma exec_lock_discipline (c : call) (w : world) :
  m_lock (this w) = false ->
  match exec Max c w with
  | Returned _ w' => m_lock (this w') = false
  | Suspended p w' =>
      p = on_condition /\ c = call_acquire /\ m_lock (this w') = false
  | Terminated _ => c = call_try_acquire
  | Thrown _ _ => False
  end.
Proof.
  intros L.
  assert (Htimed : forall t,
    match (b <- try_acquire_until Max t ;; ret (v_bool b)) w with
    | Returned _ w' => m_lock (this w') = false
    | _ => False
    end).
  { intros t. unfold bind, ret.
    destruct (try_acquire_until_spec Max t w L)
      as (consumed & w' & E & _ & _ & Hl). cbv zeta in E.
    rewrite E. exact Hl. }
  destruct c; unfold exec.
  - unfold bind. rewrite release_uncontended by exact L. reflexivity.
  - unfold bind. rewrite acquire_uncontended by exact L.
    destruct (wait_loop_spec Max has_permit (pending w)
                (on_this (set_lock true) w) eq_refl)
      as [(consumed & w' & -> & _) | (w' & -> & Ht & _)]; cbn.
    + reflexivity.
    + rewrite Ht. now repeat split.
  - unfold bind. rewrite try_acquire_eval, L. reflexivity.
  - specialize (Htimed (Chrono.plus (steady_clock w) rel_time)).
    unfold bind in *. rewrite try_acquire_for_until.
    destruct (try_acquire_until Max (Chrono.plus (steady_clock w) rel_time)
                w);
      tauto.
  - specialize (Htimed abs_time).
    destruct ((b <- try_acquire_until Max abs_time;; ret (v_bool b)) w);
      tauto.
  - exact L.
Qed.

(** X7: no call keeps the mutex.  Entered with the mutex free, every member
    function that returns has released it, through [unlock()] or the
    destructor of [lock]; none lets an exception out; only [acquire] can be
    left parked, on the condition variable and with the mutex released;
    only [try_acquire] ends the process. *)
Theorem every_call_releases_the_mutex (c : call) (w : world) :
  m_lock (this w) = false ->
  match exec Max c w with
  | Returned _ w' => m_lock (this w') = false
  | Suspended p w' =>
      p = on_condition /\ c = call_acquire /\ m_lock (this w') = false
  | Terminated _ => c = call_try_acquire
  | Thrown _ _ => False
  end.
Proof. apply exec_lock_discipline. Qed.

(** X11: a thread never deadlocks on its own earlier call.  In any sequence
    of calls entered with the mutex free, no call finds the mutex taken and
    none throws: each outcome is a return with the mutex free, a wait on
    the condition variable with the mutex released, or the termination of
    the process. *)
Theorem run_never_blocks_on_the_mutex (cs : list call) (w : world) :
  m_lock (this w) = false ->
  Forall (fun o =>
            match o with
            | Returned _ w' => m_lock (this w') = false
            | Suspended p w' => p = on_condition /\ m_lock (this w') = false
            | Terminated _ => True
            | Thrown _ _ => False
            end) (run Max cs w).
Proof.
  revert w. induction cs as [|c cs IH]; intros w L; simpl.
  - constructor.
  - pose proof (exec_lock_discipline c w L) as H.
    destruct (exec Max c w) as [v w' | | |]; cbn [returns final].
    + constructor; [exact H | now apply IH].
    + contradiction.
    + constructor; [exact I | constructor].
    + constructor; [tauto | constructor].
Qed.

(** X8: who wakes the waiters.  With no other thread acting, a returning
    [release] and a returning [acquire] each issue exactly one
    [notify_all]; [try_acquire_for], [try_acquire_until] and [max] issue
    none, also when they take a permit. *)
Theorem notify_all_accounting (c : call) (v : value) (w w' : world) :
  m_lock (this w) = false ->
  quiet (pending w) ->
  exec Max c w = Returned v w' ->
  notified (m_cv (this w')) =
  (notified (m_cv (this w)) +
   match c with
   | call_release _ | call_acquire => 1
   | _ => 0
   end)%nat.
Proof.
  intros L Q.
  assert (Htimed : forall t b w1,
    try_acquire_until Max t w = Returned b w1 ->
    notified (m_cv (this w1)) = (notified (m_cv (this w)) + 0)%nat).
  { intros t b w1. rewrite try_acquire_until_uncontended by exact L.
    destruct (wait_until_loop_spec Max has_permit t (pending w)
                (on_this (set_lock true) w) eq_refl)
      as (consumed & w2 & -> & Hs & Ht).
    cbn [pending on_this] in Hs. rewrite Hs in Q. apply quiet_prefix in Q.
    assert (Hcv : m_cv (this w2) = m_cv (this w))
      by (rewrite Ht; now rewrite m_cv_after_wakeups_quiet).
    destruct (has_permit (this w2)); intros E; injection E as _ <-;
      cbn; rewrite Hcv; lia. }
  destruct c; unfold exec, bind.
  - rewrite release_uncontended by exact L.
    intros E. injection E as _ <-. cbn. lia.
  - rewrite acquire_uncontended by exact L.
    destruct (wait_loop_spec Max has_permit (pending w)
                (on_this (set_lock true) w) eq_refl)
      as [(consumed & w1 & -> & Hs & Ht & _) | (w1 & -> & _)];
      [|discriminate].
    cbn [pending on_this] in Hs. rewrite Hs in Q. apply quiet_prefix in Q.
    intros E. injection E as _ <-. cbn. rewrite Ht.
    rewrite m_cv_after_wakeups_quiet by exact Q. cbn. lia.
  - rewrite try_acquire_eval, L. discriminate.
  - rewrite try_acquire_for_until.
    destruct (try_acquire_until Max (Chrono.plus (steady_clock w) rel_time)
                w)
      as [b w1 | | |] eqn:E; try discriminate.
    intros H. injection H as _ <-. eapply Htimed, E.
  - destruct (try_acquire_until Max abs_time w)
      as [b w1 | | |] eqn:E; try discriminate.
    intros H. injection H as _ <-. eapply Htimed, E.
  - unfold max, noexcept, ret. intros E. injection E as _ <-. lia.
Qed.

End LockFacts.

(** ** The further properties at concrete inputs *)

Lemma representable_3 : Ptrdiff.representable 3.
Proof.
  unfold Ptrdiff.representable, Ptrdiff.PTRDIFF_MIN, Ptrdiff.PTRDIFF_MAX.
  lia.
Defined.

Lemma in_range_3 (c : Z) : 0 <= c <= 3 -> in_range 3 (this (fresh c 0 [])).
Proof. intros H. exact H. Defined.

Lemma release_twice_witness :
  m_lock (this (fresh 1 0 [])) = false /\
  in_range 3 (this (fresh 1 0 [])) /\
  0 <= 1 /\ 0 <= 4 /\
  Ptrdiff.representable (m_count (this (fresh 1 0 [])) + 1 + 4) /\
  exists w1 w2 w12,
    release 3 1 (fresh 1 0 []) = Returned tt w1 /\
    release 3 4 w1 = Returned tt w2 /\
    release 3 (1 + 4) (fresh 1 0 []) = Returned tt w12 /\
    m_count (this w2) = m_count (this w12) /\
    m_count (this w12) = Z.min (m_count (this (fresh 1 0 [])) + 1 + 4) 3.
Proof.
  assert (R : in_range 3 (this (fresh 1 0 []))) by (apply in_range_3; lia).
  assert (Ha : 0 <= 1) by lia.
  assert (Hb : 0 <= 4) by lia.
  assert (S : Ptrdiff.representable (m_count (this (fresh 1 0 [])) + 1 + 4))
    by (unfold Ptrdiff.representable, Ptrdiff.PTRDIFF_MIN,
          Ptrdiff.PTRDIFF_MAX; cbn; lia).
  split; [reflexivity|]. split; [exact R|]. split; [exact Ha|].
  split; [exact Hb|]. split; [exact S|].
  exact (release_twice_is_release_of_sum 3 (fresh 1 0 []) 1 4
           eq_refl R Ha Hb S).
Defined.

Lemma release_then_acquire_witness :
  m_lock (this (fresh 3 0 [])) = false /\
  in_range 3 (this (fresh 3 0 [])) /\
  1 <= 3 < Ptrdiff.PTRDIFF_MAX /\
  exists w1 w2,
    release 3 1 (fresh 3 0 []) = Returned tt w1 /\
    acquire 3 w1 = Returned tt w2 /\
    pending w2 = pending (fresh 3 0 []) /\
    m_count (this w2) = Z.min (m_count (this (fresh 3 0 []))) (3 - 1).
Proof.
  assert (R : in_range 3 (this (fresh 3 0 []))) by (apply in_range_3; lia).
  assert (HM : 1 <= 3 < Ptrdiff.PTRDIFF_MAX)
    by (unfold Ptrdiff.PTRDIFF_MAX; lia).
  split; [reflexivity|]. split; [exact R|]. split; [exact HM|].
  exact (release_then_acquire 3 (fresh 3 0 []) eq_refl R HM).
Defined.

Lemma acquire_then_release_witness :
  Ptrdiff.representable 3 /\
  m_lock (this (fresh 2 0 [])) = false /\
  0 < m_count (this (fresh 2 0 [])) <= 3 /\
  exists w1 w2,
    acquire 3 (fresh 2 0 []) = Returned tt w1 /\
    release 3 1 w1 = Returned tt w2 /\
    pending w2 = pending (fresh 2 0 []) /\
    m_count (this w2) = m_count (this (fresh 2 0 [])).
Proof.
  assert (H : 0 < m_count (this (fresh 2 0 [])) <= 3) by (cbn; lia).
  split; [exact representable_3|]. split; [reflexivity|]. split; [exact H|].
  exact (acquire_then_release 3 representable_3 (fresh 2 0 []) eq_refl H).
Defined.

Lemma try_acquire_until_fails_witness :
  try_acquire_until 3 5 (fresh 0 0 []) = Returned false (fresh 0 5 []) /\
  5 <= steady_clock (fresh 0 5 []) /\
  m_count (this (fresh 0 5 [])) <= 0 /\
  m_lock (this (fresh 0 5 [])) = false.
Proof.
  split; [reflexivity|].
  exact (try_acquire_until_fails_only_after_deadline 3 5 (fresh 0 0 [])
           (fresh 0 5 []) eq_refl).
Defined.

Lemma try_acquire_for_fails_witness :
  Chrono.representable
    (steady_clock (fresh 0 2 [ {| elapsed := 1; others := [] |};
                               {| elapsed := 7; others := [] |} ]) + 5) /\
  try_acquire_for 3 5
    (fresh 0 2 [ {| elapsed := 1; others := [] |};
                 {| elapsed := 7; others := [] |} ])
  = Returned false (fresh 0 7 []) /\
  5 <= steady_clock (fresh 0 7 [])
       - steady_clock (fresh 0 2 [ {| elapsed := 1; others := [] |};
                                   {| elapsed := 7; others := [] |} ]) /\
  m_count (this (fresh 0 7 [])) <= 0 /\
  m_lock (this (fresh 0 7 [])) = false.
Proof.
  assert (R : Chrono.representable
                (steady_clock (fresh 0 2 [ {| elapsed := 1; others := [] |};
                                           {| elapsed := 7; others := [] |} ])
                 + 5))
    by (unfold Chrono.representable, Ptrdiff.representable,
          Ptrdiff.PTRDIFF_MIN, Ptrdiff.PTRDIFF_MAX; cbn; lia).
  split; [exact R|]. split; [reflexivity|].
  exact (try_acquire_for_fails_only_after_rel_time 3 5
           (fresh 0 2 [ {| elapsed := 1; others := [] |};
                        {| elapsed := 7; others := [] |} ])
           (fresh 0 7 []) R eq_refl).
Defined.

Lemma acquire_returns_iff_witness :
  m_lock (this (fresh 0 0 [ {| elapsed := 1; others := [by_release 1] |} ]))
  = false /\
  ((exists w',
       acquire 3 (fresh 0 0 [ {| elapsed := 1; others := [by_release 1] |} ])
       = Returned tt w') <->
   (exists p rest,
       [ {| elapsed := 1; others := [by_release 1] |} ] = p ++ rest /\
       0 < m_count (after_wakeups 3 p (counting_semaphore_ctor 0)))).
Proof.
  split; [reflexivity|].
  exact (proj1 (acquire_returns_iff_permit_shows 3
                  (fresh 0 0 [ {| elapsed := 1; others := [by_release 1] |} ])
                  eq_refl)).
Defined.

Lemma every_call_releases_witness :
  m_lock (this (fresh 0 0 [])) = false /\
  match exec 3 call_acquire (fresh 0 0 []) with
  | Returned _ w' => m_lock (this w') = false
  | Suspended p w' =>
      p = on_condition /\ call_acquire = call_acquire /\
      m_lock (this w') = false
  | Terminated _ => call_acquire = call_try_acquire
  | Thrown _ _ => False
  end.
Proof.
  split; [reflexivity|].
  exact (every_call_releases_the_mutex 3 call_acquire (fresh 0 0 [])
           eq_refl).
Defined.

Lemma notify_all_accounting_witness :
  m_lock (this (fresh 1 0 [])) = false /\
  quiet (pending (fresh 1 0 [])) /\
  exec 3 (call_try_acquire_for 4) (fresh 1 0 [])
  = Returned (v_bool true) (fresh 0 0 []) /\
  notified (m_cv (this (fresh 0 0 [])))
  = (notified (m_cv (this (fresh 1 0 []))) + 0)%nat.
Proof.
  assert (Q : quiet (pending (fresh 1 0 []))) by constructor.
  split; [reflexivity|]. split; [exact Q|]. split; [reflexivity|].
  exact (notify_all_accounting 3 (call_try_acquire_for 4) (v_bool true)
           (fresh 1 0 []) (fresh 0 0 []) eq_refl Q eq_refl).
Defined.

Lemma try_acquire_until_one_or_none_witness :
  Ptrdiff.representable 3 /\
  m_lock (this (fresh 1 0 [])) = false /\
  in_range 3 (this (fresh 1 0 [])) /\
  exists b w' consumed,
    let seen := m_count (after_wakeups 3 consumed (this (fresh 1 0 []))) in
    try_acquire_until 3 5 (fresh 1 0 []) = Returned b w' /\
    pending (fresh 1 0 []) = consumed ++ pending w' /\
    0 <= seen <= 3 /\
    (b = true <-> 0 < seen) /\
    m_count (this w') = seen - (if b then 1 else 0).
Proof.
  assert (R : in_range 3 (this (fresh 1 0 []))) by (apply in_range_3; lia).
  split; [exact representable_3|]. split; [reflexivity|]. split; [exact R|].
  exact (try_acquire_until_takes_one_or_none 3 representable_3
           (fresh 1 0 []) 5 eq_refl R).
Defined.

Lemma permits_bound_admission_witness :
  Ptrdiff.representable 3 /\
  m_lock (this (fresh 2 0 [])) = false /\
  m_count (this (fresh 2 0 [])) = Z.of_nat 2 /\
  Z.of_nat 2 <= 3 /\
  quiet (pending (fresh 2 0 [])) /\
  exists os w',
    run 3 (repeat call_acquire 3) (fresh 2 0 [])
    = os ++ [Suspended on_condition w'] /\
    length os = 2%nat /\
    Forall (fun o => returns o = true) os /\
    counts os = count_down (Z.of_nat 2) 2 /\
    m_count (this w') = 0.
Proof.
  assert (HM : Z.of_nat 2 <= 3) by (cbn; lia).
  assert (Q : quiet (pending (fresh 2 0 []))) by constructor.
  split; [exact representable_3|]. split; [reflexivity|].
  split; [reflexivity|]. split; [exact HM|]. split; [exact Q|].
  exact (permits_bound_admission 3 representable_3 2 (fresh 2 0 [])
           eq_refl eq_refl HM Q).
Defined.

Lemma run_never_blocks_witness :
  m_lock (this (fresh 1 0 [])) = false /\
  Forall (fun o =>
            match o with
            | Returned _ w' => m_lock (this w') = false
            | Suspended p w' => p = on_condition /\ m_lock (this w') = false
            | Terminated _ => True
            | Thrown _ _ => False
            end)
         (run 3 [call_release 2; call_try_acquire_for 1; call_acquire;
                 call_acquire; call_acquire] (fresh 1 0 [])).
Proof.
  split; [reflexivity|].
  exact (run_never_blocks_on_the_mutex 3 _ (fresh 1 0 []) eq_refl).
Defined.
